(** * Secret detection in [scripts/validate_files_structure.py]

    A shallow embedding of [search_potential_secrets] and of the functions
    it calls ([create_temp_white_list], [retrieve_related_yml],
    [regex_for_secrets], [calculate_shannon_entropy]), followed by the
    properties of the secret-detection engine.

    Conventions of the embedding.
    - Text is [string]; a character is a code point below 256, so the
      [lower], [split] and [strip] methods of Python's unicode strings are
      written out on that range.
    - Python sets of strings are [gset string]; the dictionary returned by
      the scan is a [gmap]; [list(set(...))] has no specified order and is
      kept as the set.
    - A [for] loop over a Python set visits its elements in an order the
      language does not fix; the order is a parameter ([set_iter]) that is
      only assumed to enumerate the set.
    - The regular expressions are kept as syntax trees and run by a
      backtracking matcher with the priorities of Python's [re] module.
    - Floating-point numbers are read as real numbers: the entropy is a
      real, and the threshold test [entropy >= 3.8] is decided by an exact
      integer comparison that is proved equivalent to it.  The value the
      code computes in double precision differs from the real one in the
      last places, so the code and the embedding can decide the test
      differently for a string whose entropy is 3.8 or within rounding of
      it, and a bound that the real value reaches can be exceeded by the
      computed one. *)

From Stdlib Require Import Reals Lra Lia ZArith Ascii String List Permutation.
From stdpp Require Import gmap strings list.

Local Open Scope string_scope.
Local Open Scope list_scope.

(** ** Python string methods *)

Definition code (c : ascii) : N := N_of_ascii c.

Definition in_range (lo hi c : ascii) : bool :=
  ((code lo <=? code c) && (code c <=? code hi))%N.

Definition one_of (chars : string) (c : ascii) : bool :=
  existsb (Ascii.eqb c) (list_ascii_of_string chars).

(** [unicode.isspace] on code points below 256. *)
Definition is_space (c : ascii) : bool :=
  let n := code c in
  ((9 <=? n) && (n <=? 13) || (28 <=? n) && (n <=? 32)
   || (n =? 133) || (n =? 160))%N.

(** [unicode.lower] on one code point below 256. *)
Definition lower_char (c : ascii) : ascii :=
  let n := code c in
  if ((65 <=? n) && (n <=? 90)
      || (192 <=? n) && (n <=? 222) && negb (n =? 215))%N
  then ascii_of_N (n + 32) else c.

(** [s.lower()] *)
Fixpoint lower (s : string) : string :=
  match s with
  | EmptyString => EmptyString
  | String c s' => String (lower_char c) (lower s')
  end.

(** [sub in s] *)
Fixpoint contains (sub s : string) : bool :=
  String.prefix sub s
  || match s with
     | EmptyString => false
     | String _ s' => contains sub s'
     end.

(** [s.count(c)] for a one-character argument. *)
Fixpoint count_char (c : ascii) (s : string) : nat :=
  match s with
  | EmptyString => 0
  | String d s' => (if Ascii.eqb d c then 1 else 0) + count_char c s'
  end.

(** [s.split(sep)] for a one-character separator. *)
Fixpoint split_on (sep : ascii) (s : string) : list string :=
  match s with
  | EmptyString => [EmptyString]
  | String c s' =>
      if Ascii.eqb c sep then EmptyString :: split_on sep s'
      else match split_on sep s' with
           | w :: ws => String c w :: ws
           | [] => [String c EmptyString]
           end
  end.

(** [s.split()]: the maximal runs of non-space characters. *)
Fixpoint split_ws (s : string) : list string :=
  match s with
  | EmptyString => []
  | String c s' =>
      if is_space c then split_ws s'
      else match s' with
           | EmptyString => [String c EmptyString]
           | String c' _ =>
               if is_space c' then String c EmptyString :: split_ws s'
               else match split_ws s' with
                    | w :: ws => String c w :: ws
                    | [] => [String c EmptyString]
                    end
           end
  end.

Fixpoint lstrip (chars : string) (s : string) : string :=
  match s with
  | EmptyString => EmptyString
  | String c s' => if one_of chars c then lstrip chars s' else s
  end.

Fixpoint rstrip (chars : string) (s : string) : string :=
  match s with
  | EmptyString => EmptyString
  | String c s' =>
      match rstrip chars s' with
      | EmptyString => if one_of chars c then EmptyString else String c EmptyString
      | r => String c r
      end
  end.

(** [s.strip(chars)] *)
Definition strip (chars : string) (s : string) : string :=
  rstrip chars (lstrip chars s).

(** [s.replace(old, '')]: the occurrences of [old] are deleted from left to
    right without overlap; [skip] counts the characters of an occurrence
    still to be dropped. *)
Fixpoint delete_all_aux (old : string) (s : string) (skip : nat) : string :=
  match skip with
  | S n =>
      match s with
      | EmptyString => EmptyString
      | String _ s' => delete_all_aux old s' n
      end
  | O =>
      match s with
      | EmptyString => EmptyString
      | String c s' =>
          if String.prefix old s then delete_all_aux old s' (Nat.pred (String.length old))
          else String c (delete_all_aux old s' 0)
      end
  end.

Definition delete_all (old s : string) : string :=
  match old with
  | EmptyString => s
  | _ => delete_all_aux old s 0
  end.

(** [s.rfind(c)], as [None] for -1. *)
Fixpoint rfind (c : ascii) (s : string) : option nat :=
  match s with
  | EmptyString => None
  | String d s' =>
      match rfind c s' with
      | Some i => Some (S i)
      | None => if Ascii.eqb d c then Some 0 else None
      end
  end.

(** [file_path.split('/')[-1]] *)
Definition last_component (file_path : string) : string :=
  List.last (split_on "/" file_path) EmptyString.

(** [os.path.splitext] (posixpath): the extension starts at the last dot
    of the last path component, unless that component has only leading
    dots before it. *)
Definition splitext (p : string) : string * string :=
  let name_start := match rfind "/" p with Some i => S i | None => 0 end in
  match rfind "." p with
  | Some dot =>
      if (name_start <=? dot)%nat
         && existsb (fun i => negb (Ascii.eqb (default "."%char (String.get i p)) "."))
                    (seq name_start (dot - name_start))
      then (substring 0 dot p, substring dot (String.length p - dot) p)
      else (p, EmptyString)
  | None => (p, EmptyString)
  end.

(** ** Regular expressions *)

Inductive regex : Type :=
| REps
| RChar (p : ascii -> bool)
| RSeq (r1 r2 : regex)
| RAlt (r1 r2 : regex)
| RRep (lo : nat) (hi : option nat) (r : regex).

Definition may_iterate (hi : option nat) : bool :=
  match hi with Some O => false | _ => true end.

Definition one_less (hi : option nat) : option nat :=
  match hi with Some n => Some (Nat.pred n) | None => None end.

(** Backtracking matcher: [rmatch r s k] matches [r] at the start of [s] and
    hands the rest of the text to [k]; the first success in priority order
    wins (left alternative first, greedy repetition).  A further iteration of
    a repetition has to consume text, which bounds the number of iterations
    by the length of the text. *)
Fixpoint rmatch (r : regex) (s : string) (k : string -> option string)
  {struct r} : option string :=
  match r with
  | REps => k s
  | RChar p =>
      match s with
      | String c s' => if p c then k s' else None
      | EmptyString => None
      end
  | RSeq r1 r2 => rmatch r1 s (fun s' => rmatch r2 s' k)
  | RAlt r1 r2 =>
      match rmatch r1 s k with
      | Some rest => Some rest
      | None => rmatch r2 s k
      end
  | RRep lo hi r1 =>
      (fix loop (fuel lo : nat) (hi : option nat) (s : string) {struct fuel}
         : option string :=
         let stop := match lo with O => k s | S _ => None end in
         match fuel with
         | O => stop
         | S fuel' =>
             if may_iterate hi then
               match rmatch r1 s
                       (fun s' =>
                          if (String.length s' <? String.length s)%nat
                          then loop fuel' (Nat.pred lo) (one_less hi) s'
                          else None) with
               | Some rest => Some rest
               | None => stop
               end
             else stop
         end) (S (String.length s)) lo hi s
  end.

(** The text matched at the start of [s], if any. *)
Definition match_here (r : regex) (s : string) : option string :=
  match rmatch r s Some with
  | Some rest => Some (substring 0 (String.length s - String.length rest) s)
  | None => None
  end.

(** [re.findall] for a pattern whose result is the whole match: scan from
    left to right, restart after each match (one character further after an
    empty one). *)
Fixpoint findall_aux (r : regex) (s : string) (skip : nat) : list string :=
  match skip with
  | S n =>
      match s with
      | EmptyString => []
      | String _ s' => findall_aux r s' n
      end
  | O =>
      match match_here r s with
      | Some m =>
          m :: match s with
               | EmptyString => []
               | String _ s' => findall_aux r s' (Nat.pred (String.length m))
               end
      | None =>
          match s with
          | EmptyString => []
          | String _ s' => findall_aux r s' 0
          end
      end
  end.

Definition findall (r : regex) (s : string) : list string := findall_aux r s 0.

(** Pattern syntax. *)
Fixpoint lit (s : string) : regex :=
  match s with
  | EmptyString => REps
  | String c s' => RSeq (RChar (Ascii.eqb c)) (lit s')
  end.

Definition opt (r : regex) : regex := RRep 0 (Some 1) r.
Definition plus (r : regex) : regex := RRep 1 None r.
Definition times (n : nat) (r : regex) : regex := RRep n (Some n) r.
Definition between (lo hi : nat) (r : regex) : regex := RRep lo (Some hi) r.
Definition cls (p : ascii -> bool) : regex := RChar p.

Fixpoint seqs (rs : list regex) : regex :=
  match rs with
  | [] => REps
  | [r] => r
  | r :: rs' => RSeq r (seqs rs')
  end.

Fixpoint alts (r : regex) (rs : list regex) : regex :=
  match rs with
  | [] => r
  | r' :: rs' => RAlt r (alts r' rs')
  end.

Definition digit : ascii -> bool := in_range "0" "9".
Definition alpha (c : ascii) : bool := in_range "a" "z" c || in_range "A" "Z" c.
Definition hexdigit (c : ascii) : bool :=
  digit c || in_range "A" "F" c || in_range "a" "f" c.
(** [\s] and [\S] without the UNICODE flag, and [.] without DOTALL. *)
Definition re_space (c : ascii) : bool :=
  let n := code c in ((n =? 32) || (9 <=? n) && (n <=? 13))%N.
Definition re_nonspace (c : ascii) : bool := negb (re_space c).
Definition re_any (c : ascii) : bool := negb (code c =? 10)%N.

Definition dquote : ascii := "034"%char.
Definition backslash : ascii := "092"%char.
Definition newline : ascii := "010"%char.

(** ** The recognizers of [regex_for_secrets] and [create_temp_white_list] *)

(** [http[s]?://(?:[a-zA-Z]|[0-9]|[$-_@.&+]|[!*\(\), ]|(?:%[0-9a-fA-F][0-9a-fA-F]))+] *)
Definition url_regex : regex :=
  seqs [lit "http"; opt (cls (one_of "s")); lit "://";
        plus (alts (cls alpha)
                [cls digit;
                 cls (fun c => in_range "$" "_" c || one_of "@.&+" c);
                 cls (one_of "!*(), ");
                 seqs [lit "%"; cls hexdigit; cls hexdigit]])].

(** [[a-zA-Z0-9_.+-]+@[a-zA-Z0-9-]+\.[a-zA-Z0-9-.]+] *)
Definition email_regex : regex :=
  seqs [plus (cls (fun c => alpha c || digit c || one_of "_.+-" c));
        lit "@";
        plus (cls (fun c => alpha c || digit c || one_of "-" c));
        lit ".";
        plus (cls (fun c => alpha c || digit c || one_of "-." c))].

(** [(?:25[0-5]|2[0-4][0-9]|[01]?[0-9][0-9]?)] *)
Definition ipv4_octet : regex :=
  alts (seqs [lit "25"; cls (in_range "0" "5")])
    [seqs [lit "2"; cls (in_range "0" "4"); cls digit];
     seqs [opt (cls (one_of "01")); cls digit; opt (cls digit)]].

(** [(?:octet\.){3}octet] *)
Definition ipv4_regex : regex :=
  seqs [times 3 (seqs [ipv4_octet; lit "."]); ipv4_octet].

(** The pieces of the IPv6 pattern: [h16] is [[0-9A-Fa-f]{1,4}], [dec_octet]
    is [(?:[0-9]|[1-9][0-9]|1[0-9]{2}|2[0-4][0-9]|25[0-5])], and the embedded
    IPv4 form separates its octets by [\\.], which in the raw pattern text is
    an escaped backslash followed by an arbitrary character. *)
Definition h16 : regex := between 1 4 (cls hexdigit).
Definition h16_colon : regex := seqs [h16; lit ":"].

Definition dec_octet : regex :=
  alts (cls digit)
    [seqs [cls (in_range "1" "9"); cls digit];
     seqs [lit "1"; times 2 (cls digit)];
     seqs [lit "2"; cls (in_range "0" "4"); cls digit];
     seqs [lit "25"; cls (in_range "0" "5")]].

Definition ipv6_v4_tail : regex :=
  seqs [times 3 (seqs [dec_octet; cls (Ascii.eqb backslash); cls re_any]);
        dec_octet].

(** [(?:h16:h16|v4)] *)
Definition ls32 : regex :=
  alts (seqs [h16; lit ":"; h16]) [ipv6_v4_tail].

(** [(?:(?:h16:){,n}h16)?] *)
Definition up_to (n : nat) : regex :=
  opt (seqs [between 0 n h16_colon; h16]).

Definition ipv6_regex : regex :=
  alts (seqs [times 6 h16_colon; ls32])
    [seqs [lit "::"; times 5 h16_colon; ls32];
     seqs [opt h16; lit "::"; times 4 h16_colon; ls32];
     seqs [opt (seqs [h16; lit ":"; h16]); lit "::"; times 3 h16_colon; ls32];
     seqs [up_to 2; lit "::"; times 2 h16_colon; ls32];
     seqs [up_to 3; lit "::"; h16; lit ":"; ls32];
     seqs [up_to 4; lit "::"; ls32];
     seqs [up_to 5; lit "::"; h16];
     seqs [up_to 6; lit "::"]].

(** [((\d{4}[/.-]\d{2}[/.-]\d{2})[T\s](\d{2}:?\d{2}:?\d{2}:?(\.\d{5,6})?([+-]\d{2}:?\d{2})?Z?)?)];
    the first group, which [regex_for_secrets] keeps, is the whole match. *)
Definition date_regex : regex :=
  seqs [times 4 (cls digit); cls (one_of "/.-"); times 2 (cls digit);
        cls (one_of "/.-"); times 2 (cls digit);
        cls (fun c => Ascii.eqb c "T" || re_space c);
        opt (seqs [times 2 (cls digit); opt (lit ":");
                   times 2 (cls digit); opt (lit ":");
                   times 2 (cls digit); opt (lit ":");
                   opt (seqs [lit "."; between 5 6 (cls digit)]);
                   opt (seqs [cls (one_of "+-"); times 2 (cls digit);
                              opt (lit ":"); times 2 (cls digit)]);
                   opt (lit "Z")])].

(** [contextPath: (\S+\.+\S+)]; [findall] returns the group, that is the
    match without its 13-character prefix. *)
Definition context_path_prefix : string := "contextPath: ".

Definition context_path_regex : regex :=
  seqs [lit context_path_prefix; plus (cls re_nonspace); plus (lit ".");
        plus (cls re_nonspace)].

Definition context_path_group (m : string) : string :=
  let n := String.length context_path_prefix in
  substring n (String.length m - n) m.

(** [(disable-secrets-detection)] *)
Definition disable_regex : regex := lit "disable-secrets-detection".

Definition regex_for_secrets (file_contents : string) : list string * list string :=
  let potential_secrets := [] in
  let false_positives := [] in
  let urls := findall url_regex file_contents in
  let potential_secrets := potential_secrets ++ urls in
  let emails := findall email_regex file_contents in
  let potential_secrets := potential_secrets ++ emails in
  let ipv6_list := findall ipv6_regex file_contents in
  let potential_secrets :=
    potential_secrets ++ List.filter (fun ipv6 => negb (String.eqb ipv6 "::")) ipv6_list in
  let ipv4_list := findall ipv4_regex file_contents in
  let potential_secrets := potential_secrets ++ ipv4_list in
  let dates := findall date_regex file_contents in
  let false_positives := false_positives ++ dates in
  (potential_secrets, false_positives).

Definition create_temp_white_list (file_contents : string) : gset string :=
  let context_paths :=
    map context_path_group (findall context_path_regex file_contents) in
  fold_left
    (fun (temp_white_list : gset string) context_path =>
       let context_path := split_on "." context_path in
       let context_path := map lower context_path in
       temp_white_list ∪ list_to_set context_path)
    context_paths ∅.

(** ** Entropy *)

(** [string.printable]: digits, letters, punctuation, whitespace. *)
Definition printable : list ascii :=
  list_ascii_of_string
    ("0123456789abcdefghijklmnopqrstuvwxyzABCDEFGHIJKLMNOPQRSTUVWXYZ!"
     ++ String dquote "#$%&'()*+,-./:;<=>?@["
     ++ String backslash "]^_`{|}~ "
     ++ String "009" (String "010" (String "013" (String "011" (String "012" "")))))%string.

Section Entropy.
Local Open Scope R_scope.

Definition ENTROPY_THRESHOLD : R := 38 / 10.

(** [float(data.count(chr(x))) / len(data)] *)
Definition px (data : string) (c : ascii) : R :=
  INR (count_char c data) / INR (String.length data).

(** [math.log(p, 2)] *)
Definition log2 (p : R) : R := ln p / ln 2.

Definition calculate_shannon_entropy (data : string) : R :=
  match data with
  | EmptyString => 0
  | _ =>
      fold_left
        (fun entropy c =>
           let p := px data c in
           if Rlt_dec 0 p then entropy + - p * log2 p else entropy)
        printable 0
  end.

End Entropy.

(** The test [calculate_shannon_entropy(data) >= ENTROPY_THRESHOLD] in
    integers.  With [n] the length of [data], [k c] the count of the printable
    character [c] and [K] the sum of these counts, the entropy is
    [(K * log2 n - sum (k c * log2 (k c))) / n], so it reaches [19/5] exactly
    when [2^(19 n) * prod (k c ^ (5 k c)) <= n ^ (5 K)]. *)
Definition printable_counts (data : string) : list Z :=
  map (fun c => Z.of_nat (count_char c data)) printable.

Definition entropy_reaches_threshold (data : string) : bool :=
  match data with
  | EmptyString => false
  | _ =>
      let n := Z.of_nat (String.length data) in
      let ks := printable_counts data in
      let K := fold_right Z.add 0%Z ks in
      (2 ^ (19 * n) * fold_right (fun k acc => k ^ (5 * k) * acc) 1 ks
       <=? n ^ (5 * K))%Z
  end.

(** ** The scan *)

(** The exceptions the scan can end with. *)
Inductive exn : Type :=
| UnboundLocalError   (* a local variable is read before any assignment *)
| IOError.            (* a file cannot be opened or decoded *)

Inductive result (A : Type) : Type :=
| Ok (a : A)
| Raise (e : exn).
Arguments Ok {A} a.
Arguments Raise {A} e.

#[global] Instance result_bind : MBind result := fun A B f m =>
  match m with
  | Ok a => f a
  | Raise e => Raise e
  end.

(** What the scan reads from its surroundings: [os.path.exists], the text
    [io.open(path).read()] returns in UTF-8 text mode ([None] when the call
    raises), and the list [json.load] returns for
    [./Tests/secrets_white_list.json] ([None] when loading raises). *)
Record environment : Type := {
  path_exists : string -> bool;
  read_text : string -> option string;
  white_list_json : option (list string)
}.

(** [any(white_list_string in s for white_list_string in secrets_white_list)] *)
Definition any_in (secrets_white_list : gset string) (s : string) : bool :=
  existsb (fun white_list_string => contains white_list_string s)
          (elements secrets_white_list).

(** The characters [string_.strip] removes from both ends: the double quote,
    parentheses, square brackets, comma, apostrophe, angle brackets, colon,
    semicolon and backslash. *)
Definition strip_chars : string :=
  String dquote ("()[],'><:;" ++ String backslash "")%string.

(** The local variables the loop over the lines of one file updates. *)
Record line_state : Type := {
  file_contents : string;
  secrets_white_list : gset string;
  high_entropy_strings : list string;
  regex_secrets : list string
}.

(** The loop [for string_ in line.split()]. *)
Definition entropy_pass (secrets_white_list : gset string) (line : string)
    (high_entropy_strings : list string) : list string :=
  fold_left
    (fun high_entropy_strings string_ =>
       let string_ := strip strip_chars string_ in
       let string_lower := lower string_ in
       if negb (any_in secrets_white_list string_lower) then
         if entropy_reaches_threshold string_
         then high_entropy_strings ++ [string_]
         else high_entropy_strings
       else high_entropy_strings)
    (split_ws line) high_entropy_strings.

(** One iteration of [for line in set(file_contents.split('\n'))]. *)
Definition scan_line (st : line_state) (line : string) : line_state :=
  match findall disable_regex line with
  | _ :: _ =>
      {| file_contents := delete_all line (file_contents st);
         secrets_white_list := secrets_white_list st;
         high_entropy_strings := high_entropy_strings st;
         regex_secrets := regex_secrets st |}
  | [] =>
      let '(potential_secrets, false_positives) := regex_for_secrets line in
      let regex_secrets :=
        regex_secrets st
        ++ List.filter
             (fun potential_secret =>
                negb (any_in (secrets_white_list st) potential_secret))
             potential_secrets in
      let secrets_white_list :=
        secrets_white_list st ∪ list_to_set false_positives in
      {| file_contents := file_contents st;
         secrets_white_list := secrets_white_list;
         high_entropy_strings :=
           entropy_pass secrets_white_list line (high_entropy_strings st);
         regex_secrets := regex_secrets |}
  end.

(** [retrieve_related_yml] *)
Definition retrieve_related_yml (env : environment) (file_path_temp : string)
  : result (option string) :=
  let yml_file := (file_path_temp ++ ".yml")%string in
  if path_exists env yml_file then
    match read_text env ("./" ++ yml_file)%string with
    | Some matching_yml_file_contents => Ok (Some matching_yml_file_contents)
    | None => Raise IOError
    end
  else Ok None.

(** The variables of [search_potential_secrets] that live across the files
    of a run.  [yml_file_contents] is assigned only in the [.py] branch:
    [None] stands for the variable not being bound yet, [Some None] for the
    value [None]. *)
Record run_state : Type := {
  run_white_list : gset string;
  yml_file_contents : option (option string);
  secrets_found : gmap string (gset string)
}.

(** [x if x else file_contents] for a string or [None]. *)
Definition truthy_or (x : option string) (file_contents : string) : string :=
  match x with
  | Some (String c s) => String c s
  | _ => file_contents
  end.

Section Scan.

(** The order in which a [for] loop visits [set(l)]. *)
Variable set_iter : list string -> list string.
Variable env : environment.

(** The body of the [with] block: the scan of one file's text, from a
    working whitelist and the text the contextual whitelist is taken from. *)
Definition scan_contents (white_list : gset string) (context_source : string)
    (contents : string) : line_state :=
  let temp_white_list := create_temp_white_list context_source in
  let secrets_white_list := white_list ∪ temp_white_list in
  fold_left scan_line (set_iter (split_on newline contents))
    {| file_contents := contents;
       secrets_white_list := secrets_white_list;
       high_entropy_strings := [];
       regex_secrets := [] |}.

(** [list(set(high_entropy_strings + regex_secrets))] *)
Definition file_secrets_of (st : line_state) : gset string :=
  list_to_set (high_entropy_strings st ++ regex_secrets st).

(** The first part of an iteration of [for file_path in secrets_file_paths],
    up to the end of the [with] block: the value [yml_file_contents] has
    there and the local variables the loop over the lines leaves. *)
Definition file_scan (st : run_state) (file_path : string)
  : result (option string * line_state) :=
  let '(file_path_temp, file_extension) := splitext file_path in
  yml ← (if String.eqb file_extension ".py"
         then (y ← retrieve_related_yml env file_path_temp; Ok (Some y))
         else Ok (yml_file_contents st));
  match read_text env ("./" ++ file_path)%string with
  | None => Raise IOError
  | Some contents =>
      match yml with
      | None => Raise UnboundLocalError
      | Some y =>
          Ok (y, scan_contents (run_white_list st) (truthy_or y contents) contents)
      end
  end.

(** [if high_entropy_strings or regex_secrets] *)
Definition has_findings (ls : line_state) : bool :=
  match high_entropy_strings ls, regex_secrets ls with
  | [], [] => false
  | _, _ => true
  end.

(** One iteration of [for file_path in secrets_file_paths]. *)
Definition scan_file (st : run_state) (file_path : string) : result run_state :=
  let file_name := last_component file_path in
  '(y, ls) ← file_scan st file_path;
  Ok {| run_white_list := secrets_white_list ls;
        yml_file_contents := Some y;
        secrets_found :=
          if has_findings ls
          then <[file_name := file_secrets_of ls]> (secrets_found st)
          else secrets_found st |}.

Fixpoint scan_files (st : run_state) (secrets_file_paths : list string)
  : result run_state :=
  match secrets_file_paths with
  | [] => Ok st
  | file_path :: rest => st' ← scan_file st file_path; scan_files st' rest
  end.

(** [search_potential_secrets]; [secrets_file_paths] lists the paths in the
    order the loop visits them. *)
Definition search_potential_secrets (secrets_file_paths : list string)
  : result (gmap string (gset string)) :=
  match white_list_json env with
  | None => Raise IOError
  | Some entries =>
      st ← scan_files {| run_white_list := list_to_set entries;
                         yml_file_contents := None;
                         secrets_found := ∅ |} secrets_file_paths;
      Ok (secrets_found st)
  end.

End Scan.

(** A small environment for examples: the files of [files] exist, with the
    given text. *)
Definition find_file (files : list (string * string)) (p : string) : option string :=
  snd <$> List.find (fun f => String.eqb (fst f) p) files.

Definition env_of (files : list (string * string)) (white_list : list string)
  : environment :=
  {| path_exists := fun p => bool_decide (is_Some (find_file files p));
     read_text := fun p =>
       match p with
       | String "." (String "/" p') => find_file files p'
       | _ => None
       end;
     white_list_json := Some white_list |}.

(** Two admissible visiting orders of a set of lines. *)
Definition first_seen (l : list string) : list string := remove_dups l.
Definition last_first (l : list string) : list string := rev (remove_dups l).

(** ** Specification-side definitions *)

Section EntropySpec.
Local Open Scope R_scope.

(** The entropy in the specification's words: the sum, over the printable
    characters whose count in [data] is positive, of
    [-(count/len) * log2 (count/len)]. *)
Definition entropy_sum (data : string) : R :=
  fold_right Rplus 0
    (map (fun c =>
            - (INR (count_char c data) / INR (String.length data))
            * (ln (INR (count_char c data) / INR (String.length data)) / ln 2))
         (List.filter (fun c => (0 <? count_char c data)%nat) printable)).

End EntropySpec.

(** [bool(re.findall(r'(disable-secrets-detection)', line))] *)
Definition line_disabled (line : string) : bool :=
  match findall disable_regex line with
  | [] => false
  | _ :: _ => true
  end.

(** The date matches of the lines of [lines] that are not disabled: what
    scanning these lines adds to the working whitelist. *)
Fixpoint exemptions (lines : list string) : gset string :=
  match lines with
  | [] => ∅
  | line :: rest =>
      (if line_disabled line then ∅
       else list_to_set (snd (regex_for_secrets line)))
      ∪ exemptions rest
  end.

(** [x] is appended to one of the two result lists when [line] is scanned
    with the working whitelist [white_list]: either as a pattern match that
    contains no entry of [white_list], or as a stripped token of entropy at
    least 3.8 whose lowercased form contains no entry of [white_list] and no
    date match of the line itself. *)
Definition reported_at (white_list : gset string) (line x : string) : Prop :=
  line_disabled line = false
  ∧ ((x ∈ fst (regex_for_secrets line) ∧ any_in white_list x = false)
     ∨ (∃ tok, tok ∈ split_ws line ∧ x = strip strip_chars tok
          ∧ any_in (white_list ∪ list_to_set (snd (regex_for_secrets line)))
                   (lower x) = false
          ∧ entropy_reaches_threshold x = true)).

(** The finding set a second coverage check at report time would leave:
    the findings whose lowercased form contains no entry of the working
    whitelist as it is when the loop over the lines ends. *)
Definition report_time_filter (st : line_state) : gset string :=
  filter (fun x => any_in (secrets_white_list st) (lower x) = false)
         (list_to_set (high_entropy_strings st ++ regex_secrets st) : gset string).

#[global] Instance exn_eq_dec : EqDecision exn.
Proof. solve_decision. Defined.

#[global] Instance result_eq_dec {A : Type} `{EqDecision A} : EqDecision (result A).
Proof. solve_decision. Defined.

#[global] Instance line_state_eq_dec : EqDecision line_state.
Proof. solve_decision. Defined.

(** The quantities the integer form of the threshold test is built from:
    the sum of the counts and the sum of [k * ln k] as reals, the sum of the
    counts and the product of the [k ^ (5 k)] as integers. *)
Section ThresholdTerms.
Local Open Scope R_scope.

(** The sum of the counts and the sum of [k * ln k] over a list of counts. *)
Definition count_sum (ks : list nat) : R :=
  fold_right Rplus 0 (map INR ks).

Definition klnk_sum (ks : list nat) : R :=
  fold_right Rplus 0 (map (fun k => INR k * ln (INR k)) ks).

End ThresholdTerms.

(** The integer side. *)
Definition count_total (ks : list nat) : Z :=
  fold_right Z.add 0%Z (map Z.of_nat ks).

Definition power_product (ks : list nat) : Z :=
  fold_right (fun k acc => (k ^ (5 * k) * acc)%Z) 1%Z (map Z.of_nat ks).


(** ** Inputs of the examples *)

Definition dated_url_text : string := "http://h.io/2024-01-05 x".

Definition two_line_text : string :=
  "token: ax7$Qz9!mP2#vL" ++ String newline "see http://h.io/x".

Definition order_text : string :=
  "see http://h.io/2024-01-05T" ++ String newline "2024-01-05T".

Definition same_name_env : environment :=
  env_of [("d1/a.py", "token: ax7$Qz9!mP2#vL"); ("d2/a.py", "see http://h.io/x")] [].

Definition empty_run : run_state :=
  {| run_white_list := ∅; yml_file_contents := None; secrets_found := ∅ |}.

Definition random_token : string := "ax7$Qz9!mP2#vL".
Definition random_line : string := "token: ax7$Qz9!mP2#vL".
Definition placeholder_line : string := "token: api.key.placeholder".

(** A token that holds the whitelist entry [api.key] and whose characters
    are otherwise those of [random_token]. *)
Definition keyed_token : string := "api.key.ax7$Qz9!mP2#vL".
Definition keyed_line : string := "token: api.key.ax7$Qz9!mP2#vL".

Definition leak_env : environment :=
  env_of [("a.py", "contextPath: ax7.zz"); ("b.py", random_line)] [].

Definition marked_text : string :=
  "contextPath: ax7.zz # disable-secrets-detection" ++ String newline random_line.

Definition own_context_text : string :=
  "contextPath: ax7.zz" ++ String newline random_line.

Definition stale_env : environment :=
  env_of [("a.py", "x = 1"); ("a.yml", "name: a"); ("b.json", own_context_text)] [].

Definition date_literal : string := "1987/06-25T13:40:29.84561+0735Z".

Definition date_twice_text : string :=
  date_literal ++ String newline ("at " ++ date_literal).

Definition mixed_case_url : string := "http://Example.com/login".

(** ** Definitions for the further properties *)

(** The words a pattern denotes. *)
Fixpoint lang (r : regex) (w : string) : Prop :=
  match r with
  | REps => w = EmptyString
  | RChar p => exists c, w = String c EmptyString /\ p c = true
  | RSeq r1 r2 => exists w1 w2, w = (w1 ++ w2)%string /\ lang r1 w1 /\ lang r2 w2
  | RAlt r1 r2 => lang r1 w \/ lang r2 w
  | RRep lo hi r1 =>
      exists ws, w = String.concat EmptyString ws
        /\ (lo <= List.length ws)%nat
        /\ match hi with Some h => (List.length ws <= h)%nat | None => True end
        /\ Forall (lang r1) ws
  end.

(** The repetition loop of [rmatch], for a body matcher [m]. *)
Section RepLoop.
Variable m : string -> (string -> option string) -> option string.
Variable k : string -> option string.

Fixpoint rep_loop (fuel lo : nat) (hi : option nat) (s : string) {struct fuel}
  : option string :=
  let stop := match lo with O => k s | S _ => None end in
  match fuel with
  | O => stop
  | S fuel' =>
      if may_iterate hi then
        match m s (fun s' =>
                     if (String.length s' <? String.length s)%nat
                     then rep_loop fuel' (Nat.pred lo) (one_less hi) s'
                     else None) with
        | Some rest => Some rest
        | None => stop
        end
      else stop
  end.

End RepLoop.

(** [all_chars p s]: every character of [s] satisfies [p]. *)
Fixpoint all_chars (p : ascii -> bool) (s : string) : bool :=
  match s with
  | EmptyString => true
  | String c s' => p c && all_chars p s'
  end.

(** Whether a pattern can match the empty word, and an upper bound on the
    characters a word of the pattern can start with. *)
Fixpoint nullable (r : regex) : bool :=
  match r with
  | REps => true
  | RChar _ => false
  | RSeq r1 r2 => nullable r1 && nullable r2
  | RAlt r1 r2 => nullable r1 || nullable r2
  | RRep lo _ r1 => (lo =? 0)%nat || nullable r1
  end.

Fixpoint first_char (r : regex) (c : ascii) : bool :=
  match r with
  | REps => false
  | RChar p => p c
  | RSeq r1 r2 => first_char r1 c || nullable r1 && first_char r2 c
  | RAlt r1 r2 => first_char r1 c || first_char r2 c
  | RRep _ _ r1 => first_char r1 c
  end.

(** The characters that cannot occur in a lowercased token: the capital [T]
    and the separators of [\s]. *)
Definition date_separator (c : ascii) : bool := Ascii.eqb c "T" || re_space c.

(** The entropy pass over the lines without the disable marker, with one
    whitelist for all of them. *)
Definition entropy_passes (white_list : gset string) (lines : list string)
    (high_entropy_strings : list string) : list string :=
  fold_left
    (fun acc line =>
       if line_disabled line then acc else entropy_pass white_list line acc)
    lines high_entropy_strings.

(** The last character of a string. *)
Fixpoint last_char (s : string) : option ascii :=
  match s with
  | EmptyString => None
  | String c EmptyString => Some c
  | String _ s' => last_char s'
  end.

Definition first_char_of (s : string) : option ascii :=
  match s with
  | EmptyString => None
  | String c _ => Some c
  end.

(** The state [search_potential_secrets] starts its loop from. *)
Definition initial_state (entries : list string) : run_state :=
  {| run_white_list := list_to_set entries;
     yml_file_contents := None;
     secrets_found := ∅ |}.

Definition dotted_env : environment :=
  env_of [("a.py", "contextPath: a..b"); ("b.py", "token: ax7$Qz9!mP2#vL")] [].

(** ** The list of files to scan *)

(** [str.upper], [str.isspace] and [str.split()] on the byte strings a git
    command prints: ASCII letters and the six ASCII whitespace characters. *)
Definition upper_char (c : ascii) : ascii :=
  let n := code c in
  if ((97 <=? n) && (n <=? 122))%N then ascii_of_N (n - 32) else c.

Fixpoint upper (s : string) : string :=
  match s with
  | EmptyString => EmptyString
  | String c s' => String (upper_char c) (upper s')
  end.

Definition is_space_str : ascii -> bool := re_space.

Fixpoint split_str (s : string) : list string :=
  match s with
  | EmptyString => []
  | String c s' =>
      if is_space_str c then split_str s'
      else match s' with
           | EmptyString => [String c EmptyString]
           | String c' _ =>
               if is_space_str c' then String c EmptyString :: split_str s'
               else match split_str s' with
                    | w :: ws => String c w :: ws
                    | [] => [String c EmptyString]
                    end
           end
  end.

Definition SECRETS_WHITE_LIST_FILE : string := "secrets_white_list".

Definition text_file_types : list string :=
  [".yml"; ".py"; ".json"; ".md"; ".txt"; ".sh"; ".ini"; ".eml"; ""; ".csv"].

Definition is_text_file (file_path : string) : bool :=
  let file_extension := snd (splitext file_path) in
  existsb (String.eqb file_extension) text_file_types.

(** One iteration of the loop of [get_diff_text_files]; [None] stands for the
    [IndexError] that [file_data[1]] raises on a line with a single field. *)
Definition diff_line (text_files_list : gset string) (file_name : string)
  : option (gset string) :=
  match split_str file_name with
  | [] => Some text_files_list
  | file_status :: file_data =>
      match file_data with
      | [] => None
      | file_path :: _ =>
          if existsb (String.eqb (upper file_status)) ["M"; "A"]
             && is_text_file file_path
             && negb (contains SECRETS_WHITE_LIST_FILE file_path)
          then Some (text_files_list ∪ {[ file_path ]})
          else Some text_files_list
      end
  end.

Fixpoint diff_lines (text_files_list : gset string) (all_files : list string)
  : option (gset string) :=
  match all_files with
  | [] => Some text_files_list
  | file_name :: rest =>
      match diff_line text_files_list file_name with
      | Some text_files_list => diff_lines text_files_list rest
      | None => None
      end
  end.

Definition get_diff_text_files (files_string : string) : option (gset string) :=
  diff_lines ∅ (split_on newline files_string).

(** A diff line that names a path to scan. *)
Definition names_text_file (file_name file_path : string) : Prop :=
  exists file_status rest,
    split_str file_name = file_status :: file_path :: rest
    /\ (upper file_status = "M" \/ upper file_status = "A")
    /\ is_text_file file_path = true
    /\ contains SECRETS_WHITE_LIST_FILE file_path = false.

(** During the run over [paths] from [st], some file yields findings when
    its turn comes. *)
Definition some_file_has_findings (set_iter : list string -> list string)
    (env : environment) (st : run_state) (paths : list string) : Prop :=
  exists pre p post st1 y ls,
    paths = pre ++ p :: post
    /\ scan_files set_iter env st pre = Ok st1
    /\ file_scan set_iter env st1 p = Ok (y, ls)
    /\ has_findings ls = true.

(** ** The lists of modified and added files *)

(** [str.lower] on a byte string: ASCII letters only. *)
Definition lower_char_str (c : ascii) : ascii :=
  let n := code c in
  if ((65 <=? n) && (n <=? 90))%N then ascii_of_N (n + 32) else c.

Fixpoint lower_str (s : string) : string :=
  match s with
  | EmptyString => EmptyString
  | String c s' => String (lower_char_str c) (lower_str s')
  end.

(** A literal matched with [re.IGNORECASE], and [.*]. *)
Fixpoint lit_ci (s : string) : regex :=
  match s with
  | EmptyString => REps
  | String c s' =>
      RSeq (RChar (fun d => Ascii.eqb (lower_char_str d) (lower_char_str c))) (lit_ci s')
  end.

Definition any_star : regex := RRep 0 None (RChar re_any).

(** The pattern [dir.*name.*.ext] the file-type constants are formatted to. *)
Definition type_regex (dir name ext : string) : regex :=
  seqs [lit_ci dir; any_star; lit_ci name; any_star; RChar re_any; lit_ci ext].

(** The pattern [dir.*.ext]. *)
Definition dir_regex (dir ext : string) : regex :=
  seqs [lit_ci dir; any_star; RChar re_any; lit_ci ext].

Definition INTEGRATION_REGEX := type_regex "Integrations" "integration-" "yml".
Definition PLAYBOOK_REGEX := type_regex "Playbooks" "playbook-" "yml".
Definition SCRIPT_REGEX := type_regex "Scripts" "script-" "yml".
Definition INTEGRATION_YML_REGEX := dir_regex "Integrations" "yml".
Definition WIDGETS_REGEX := type_regex "Widgets" "widget-" "json".
Definition DASHBOARD_REGEX := type_regex "Dashboards" "dashboard-" "json".
Definition CONNECTIONS_REGEX :=
  type_regex "Connections" "canvas-context-connections" "json".
Definition CLASSIFIER_REGEX := type_regex "Classifiers" "classifier-" "json".
Definition SCRIPT_YML_REGEX := dir_regex "Scripts" "yml".
Definition LAYOUT_REGEX := type_regex "Layouts" "layout-" "json".
Definition INCIDENT_FIELDS_REGEX := type_regex "IncidentFields" "incidentfields" "json".
Definition INCIDENT_FIELD_REGEX := type_regex "IncidentFields" "incidentfield-" "json".
Definition MISC_REGEX := type_regex "Misc" "reputations" "json".
Definition REPORT_REGEX := type_regex "Reports" "report-" "json".

Definition CHECKED_TYPES_REGEXES : list regex :=
  [INTEGRATION_REGEX; PLAYBOOK_REGEX; SCRIPT_REGEX; INTEGRATION_YML_REGEX;
   WIDGETS_REGEX; DASHBOARD_REGEX; CONNECTIONS_REGEX; CLASSIFIER_REGEX;
   SCRIPT_YML_REGEX; LAYOUT_REGEX; INCIDENT_FIELDS_REGEX; INCIDENT_FIELD_REGEX;
   MISC_REGEX; REPORT_REGEX].

(** [bool(re.match(regex, s, re.IGNORECASE))] for a pattern built with
    [lit_ci]. *)
Definition re_match (r : regex) (s : string) : bool :=
  match rmatch r s Some with
  | Some _ => true
  | None => false
  end.

Definition checked_type (file_path : string) : bool :=
  existsb (fun regex => re_match regex file_path) CHECKED_TYPES_REGEXES.

(** [s.endswith(suffix)] and [s.startswith(prefix)] *)
Definition endswith (suffix s : string) : bool :=
  let n := String.length suffix in
  (n <=? String.length s)%nat
  && String.eqb (substring (String.length s - n) n s) suffix.

Definition startswith (prefix s : string) : bool := String.prefix prefix s.

(** One iteration of the loop of [get_modified_files] on the pair of the
    modified and the added files; [None] is the [IndexError] of a line with a
    single field.  The message printed for an unknown status is not part of
    the result. *)
Definition modified_line (lists : gset string * gset string) (f : string)
  : option (gset string * gset string) :=
  let '(modified_files_list, added_files_list) := lists in
  match split_str f with
  | [] => Some lists
  | file_status :: file_data =>
      match file_data with
      | [] => None
      | file_path :: _ =>
          if endswith ".js" file_path || endswith ".py" file_path then Some lists
          else if String.eqb (lower_str file_status) "m" && checked_type file_path
                  && negb (startswith "." file_path)
          then Some (modified_files_list ∪ {[ file_path ]}, added_files_list)
          else if String.eqb (lower_str file_status) "a" && checked_type file_path
                  && negb (startswith "." file_path)
          then Some (modified_files_list, added_files_list ∪ {[ file_path ]})
          else Some lists
      end
  end.

Fixpoint modified_lines (lists : gset string * gset string) (all_files : list string)
  : option (gset string * gset string) :=
  match all_files with
  | [] => Some lists
  | f :: rest =>
      match modified_line lists f with
      | Some lists => modified_lines lists rest
      | None => None
      end
  end.

Definition get_modified_files (files_string : string)
  : option (gset string * gset string) :=
  modified_lines (∅, ∅) (split_on newline files_string).

(** [get_modified_and_added_files], from the two outputs of git: the diff
    against master and the diff against HEAD.  [set_order] is the order in
    which the loop visits the set of modified files. *)
Definition move_added (added_files_from_branch : gset string)
    (lists : gset string * gset string) (mod_file : string)
  : gset string * gset string :=
  let '(modified_files, added_files) := lists in
  if bool_decide (mod_file ∈ added_files_from_branch)
  then (modified_files ∖ {[ mod_file ]}, added_files ∪ {[ mod_file ]})
  else lists.

Definition get_modified_and_added_files (set_order : gset string -> list string)
    (all_changed_files_string files_string : string) (is_circle : bool)
  : option (gset string * gset string) :=
  if is_circle then get_modified_files all_changed_files_string
  else
    lists ← get_modified_files files_string;
    from_branch ← get_modified_files all_changed_files_string;
    Some (fold_left (move_added (snd from_branch)) (set_order (fst lists)) lists).

(** A diff line that names a path for the list of status [status]. *)
Definition names_checked_file (status f file_path : string) : Prop :=
  exists file_status rest,
    split_str f = file_status :: file_path :: rest
    /\ lower_str file_status = status
    /\ checked_type file_path = true
    /\ endswith ".js" file_path = false /\ endswith ".py" file_path = false.

(** ** The id set *)

Section IdSet.
(** The values of the JSON dictionaries, with the value a string stands
    for. *)
Context {V : Type} `{EqDecision V}.
Variable vstr : string -> V.

(** A dictionary with a single entry such as [{id: data}], kept as the list
    of its items in iteration order: [d.keys()[0]] and [d[d.keys()[0]]] are
    the two components of the first item, and raise [IndexError] ([None]) on
    the empty dictionary. *)
Definition first_item (d : list (string * gmap string V))
  : option (string * gmap string V) := head d.

(** [d.get(key, default)] for a string default. *)
Definition get_or (d : gmap string V) (key default_value : string) : V :=
  default (vstr default_value) (d !! key).

(** The loop of [is_valid_in_id_set]; the messages it prints are not part
    of the result. *)
Fixpoint id_set_loop (file_id : string) (file_data : gmap string V)
    (obj_set : list (list (string * gmap string V))) (is_found : bool)
  : option bool :=
  match obj_set with
  | [] => Some is_found
  | checked_instance :: rest =>
      match first_item checked_instance with
      | None => None
      | Some (checked_instance_id, checked_instance_data) =>
          let checked_instance_toversion :=
            get_or checked_instance_data "toversion" "99.99.99" in
          let checked_instance_fromversion :=
            get_or checked_instance_data "fromversion" "0.0.0" in
          let obj_to_version := get_or file_data "toversion" "99.99.99" in
          let obj_from_version := get_or file_data "fromversion" "0.0.0" in
          if String.eqb checked_instance_id file_id
             && bool_decide (checked_instance_toversion = obj_to_version)
             && bool_decide (checked_instance_fromversion = obj_from_version)
          then
            if bool_decide (checked_instance_data <> file_data) then Some false
            else id_set_loop file_id file_data rest true
          else id_set_loop file_id file_data rest is_found
      end
  end.

Definition is_valid_in_id_set (obj_data : list (string * gmap string V))
    (obj_set : list (list (string * gmap string V))) : option bool :=
  match first_item obj_data with
  | None => None
  | Some (file_id, file_data) => id_set_loop file_id file_data obj_set false
  end.

(** An instance of the id set with the id and the version range of the
    file. *)
Definition same_id_and_versions (file_id : string) (file_data : gmap string V)
    (checked_instance : list (string * gmap string V)) : Prop :=
  exists checked_instance_data rest,
    checked_instance = (file_id, checked_instance_data) :: rest
    /\ get_or checked_instance_data "toversion" "99.99.99"
       = get_or file_data "toversion" "99.99.99"
    /\ get_or checked_instance_data "fromversion" "0.0.0"
       = get_or file_data "fromversion" "0.0.0".

End IdSet.

(** Further inputs of the examples. *)
Definition silenced_state : run_state :=
  {| run_white_list := {[ EmptyString ]};
     yml_file_contents := None;
     secrets_found := ∅ |}.

Definition diff_text : string :=
  "M Scripts/a.py" ++ String newline ("A docs/x.yml" ++ String newline "D z.py").

Definition head_diff_text : string :=
  "M Playbooks/playbook-a.yml" ++ String newline "M Scripts/script-b.js".

Definition branch_diff_text : string := "A Playbooks/playbook-a.yml".

(** * Properties *)

(** ** Entropy *)

Section EntropyFacts.
Local Open Scope R_scope.

Lemma length_pos_INR (c : ascii) (s : string) : 0 < INR (String.length (String c s)).
Proof. apply lt_0_INR. simpl. lia. Qed.

Lemma px_pos_iff (data : string) (c : ascii) :
  data <> EmptyString -> (0 < px data c <-> (0 < count_char c data)%nat).
Proof.
  intros Hne. destruct data as [|d data']; [congruence|].
  pose proof (length_pos_INR d data') as Hlen. unfold px. split.
  - intros Hp. apply INR_lt. simpl (INR 0).
    destruct (Rle_or_lt (INR (count_char c (String d data'))) 0) as [Hle|]; [|assumption].
    exfalso. apply (Rlt_irrefl 0). eapply Rlt_le_trans; [exact Hp|].
    unfold Rdiv. rewrite <- (Rmult_0_l (/ INR (String.length (String d data')))).
    apply Rmult_le_compat_r; [|exact Hle]. left. now apply Rinv_0_lt_compat.
  - intros Hk. apply Rdiv_lt_0_compat; [|exact Hlen]. now apply lt_0_INR.
Qed.

Lemma entropy_fold_acc (data : string) (l : list ascii) (acc : R) :
  data <> EmptyString ->
  fold_left
    (fun entropy c =>
       let p := px data c in
       if Rlt_dec 0 p then entropy + - p * log2 p else entropy) l acc
  = acc + fold_right Rplus 0
      (map (fun c => - px data c * log2 (px data c))
         (List.filter (fun c => (0 <? count_char c data)%nat) l)).
Proof.
  intros Hne. revert acc. induction l as [|c l IH]; intros acc; simpl.
  - lra.
  - rewrite IH. destruct (Rlt_dec 0 (px data c)) as [Hp|Hp].
    + apply px_pos_iff in Hp; [|assumption].
      apply Nat.ltb_lt in Hp. rewrite Hp. simpl. lra.
    + destruct (0 <? count_char c data)%nat eqn:Hk; [|reflexivity].
      exfalso. apply Hp. apply px_pos_iff; [assumption|]. now apply Nat.ltb_lt.
Qed.

Lemma printable_length : List.length printable = 100%nat.
Proof. vm_compute. reflexivity. Qed.

Lemma printable_NoDup : NoDup printable.
Proof.
  apply (bool_decide_unpack (NoDup printable)). vm_compute. exact I.
Qed.

(** C7.  [string.printable] has 100 distinct characters; the entropy of the
    empty string is 0; for every string the entropy is the sum, over the
    printable characters whose count is positive, of
    [-(count/len) * log2 (count/len)]. *)
Theorem entropy_is_sum :
  List.length printable = 100%nat /\ NoDup printable
  /\ calculate_shannon_entropy EmptyString = 0
  /\ forall s : string, calculate_shannon_entropy s = entropy_sum s.
Proof.
  split; [exact printable_length|]. split; [exact printable_NoDup|].
  split; [unfold calculate_shannon_entropy; reflexivity|].
  intros s. destruct s as [|c s].
  - unfold entropy_sum, calculate_shannon_entropy.
    change (List.filter (fun c => (0 <? count_char c EmptyString)%nat) printable)
      with (List.filter (fun _ : ascii => false) printable).
    rewrite List.filter_false. reflexivity.
  - unfold calculate_shannon_entropy. rewrite entropy_fold_acc by discriminate.
    rewrite Rplus_0_l. unfold entropy_sum, px, log2. reflexivity.
Qed.

(** *** The threshold test in integers *)

Lemma ln_le_iff (x y : R) : 0 < x -> 0 < y -> (x <= y <-> ln x <= ln y).
Proof.
  intros Hx Hy. split.
  - intros [Hlt|Heq].
    + left. now apply ln_increasing.
    + right. now rewrite Heq.
  - intros Hln. destruct (Rle_or_lt x y) as [|Hlt]; [assumption|].
    exfalso. apply (ln_increasing y x Hy) in Hlt. lra.
Qed.

Lemma ln2_pos : 0 < ln 2.
Proof. rewrite <- ln_1. apply ln_increasing; lra. Qed.

Lemma entropy_term_scaled (k n : nat) :
  (0 < k)%nat -> (0 < n)%nat ->
  - (INR k / INR n) * (ln (INR k / INR n) / ln 2) * (INR n * ln 2)
  = INR k * ln (INR n) - INR k * ln (INR k).
Proof.
  intros Hk Hn. apply lt_0_INR in Hk. apply lt_0_INR in Hn.
  pose proof ln2_pos as H2.
  assert (ln (INR k / INR n) = ln (INR k) - ln (INR n)) as ->.
  { unfold Rdiv. rewrite ln_mult; [|assumption|now apply Rinv_0_lt_compat].
    rewrite ln_Rinv by assumption. lra. }
  field. split; lra.
Qed.

Lemma entropy_sum_scaled (data : string) (l : list ascii) :
  (0 < String.length data)%nat ->
  fold_right Rplus 0
    (map (fun c => - px data c * log2 (px data c))
       (List.filter (fun c => (0 <? count_char c data)%nat) l))
  * (INR (String.length data) * ln 2)
  = count_sum (map (fun c => count_char c data) l) * ln (INR (String.length data))
    - klnk_sum (map (fun c => count_char c data) l).
Proof.
  intros Hn. unfold count_sum, klnk_sum.
  induction l as [|c l IH]; simpl.
  - lra.
  - destruct (0 <? count_char c data)%nat eqn:Hk; simpl.
    + apply Nat.ltb_lt in Hk. rewrite Rmult_plus_distr_r, IH.
      unfold px, log2. rewrite entropy_term_scaled by assumption. lra.
    + apply Nat.ltb_ge in Hk. assert (count_char c data = 0%nat) as -> by lia.
      rewrite IH. simpl (INR 0). lra.
Qed.

Lemma entropy_scaled (data : string) :
  (0 < String.length data)%nat ->
  calculate_shannon_entropy data * (INR (String.length data) * ln 2)
  = count_sum (map (fun c => count_char c data) printable)
    * ln (INR (String.length data))
    - klnk_sum (map (fun c => count_char c data) printable).
Proof.
  intros Hn. destruct data as [|d data]; [simpl in Hn; lia|].
  unfold calculate_shannon_entropy. rewrite entropy_fold_acc by discriminate.
  rewrite Rplus_0_l. now apply entropy_sum_scaled.
Qed.

Lemma count_total_IZR (ks : list nat) : IZR (count_total ks) = count_sum ks.
Proof.
  unfold count_total, count_sum. induction ks as [|k ks IH]; simpl; [reflexivity|].
  rewrite plus_IZR, IH, <- INR_IZR_INZ. reflexivity.
Qed.

Lemma count_total_nonneg (ks : list nat) : (0 <= count_total ks)%Z.
Proof. unfold count_total. induction ks as [|k ks IH]; simpl; lia. Qed.

Lemma self_power_IZR (k : nat) :
  IZR (Z.of_nat k ^ (5 * Z.of_nat k)) = INR k ^ (5 * k).
Proof.
  replace (5 * Z.of_nat k)%Z with (Z.of_nat (5 * k)) by lia.
  rewrite <- pow_IZR, <- INR_IZR_INZ. reflexivity.
Qed.

Lemma self_power_pos (k : nat) : 0 < INR k ^ (5 * k).
Proof.
  destruct k as [|k].
  - simpl. lra.
  - apply pow_lt. apply lt_0_INR. lia.
Qed.

Lemma self_power_ln (k : nat) : ln (INR k ^ (5 * k)) = 5 * (INR k * ln (INR k)).
Proof.
  destruct k as [|k].
  - simpl. rewrite ln_1. lra.
  - rewrite ln_pow by (apply lt_0_INR; lia). rewrite mult_INR.
    change (INR 5) with (IZR 5) || idtac.
    replace (INR 5) with 5 by (simpl; lra). lra.
Qed.

Lemma power_product_pos (ks : list nat) : 0 < IZR (power_product ks).
Proof.
  unfold power_product. induction ks as [|k ks IH]; simpl.
  - lra.
  - rewrite mult_IZR, self_power_IZR. apply Rmult_lt_0_compat; [apply self_power_pos|exact IH].
Qed.

Lemma power_product_ln (ks : list nat) :
  ln (IZR (power_product ks)) = 5 * klnk_sum ks.
Proof.
  unfold power_product, klnk_sum. induction ks as [|k ks IH]; simpl.
  - rewrite ln_1. lra.
  - rewrite mult_IZR, self_power_IZR.
    rewrite ln_mult; [|apply self_power_pos|apply (power_product_pos ks)].
    rewrite self_power_ln. unfold power_product in IH. rewrite IH. lra.
Qed.

Lemma printable_counts_nat (data : string) :
  printable_counts data = map Z.of_nat (map (fun c => count_char c data) printable).
Proof. unfold printable_counts. rewrite map_map. reflexivity. Qed.

(** [entropy_reaches_threshold] decides [calculate_shannon_entropy data >= 3.8]. *)
Lemma entropy_reaches_threshold_spec (data : string) :
  entropy_reaches_threshold data = true
  <-> calculate_shannon_entropy data >= ENTROPY_THRESHOLD.
Proof.
  unfold ENTROPY_THRESHOLD. destruct data as [|d data].
  - unfold entropy_reaches_threshold, calculate_shannon_entropy. split; [discriminate|lra].
  - set (s := String d data).
    assert (0 < String.length s)%nat as Hn by (simpl; lia).
    pose proof (entropy_scaled s Hn) as HE.
    set (ks := map (fun c => count_char c s) printable) in *.
    set (n := String.length s) in *.
    assert (0 < INR n) as HN by now apply lt_0_INR.
    pose proof ln2_pos as H2.
    assert (entropy_reaches_threshold s
            = (2 ^ (19 * Z.of_nat n) * power_product ks <=? Z.of_nat n ^ (5 * count_total ks))%Z)
      as ->.
    { unfold entropy_reaches_threshold, s. fold s. rewrite printable_counts_nat.
      fold ks. reflexivity. }
    rewrite Z.leb_le.
    assert (IZR (2 ^ (19 * Z.of_nat n)) = 2 ^ (19 * n)) as E2.
    { replace (19 * Z.of_nat n)%Z with (Z.of_nat (19 * n)) by lia. now rewrite <- pow_IZR. }
    assert (IZR (Z.of_nat n ^ (5 * count_total ks))
            = INR n ^ Z.to_nat (5 * count_total ks)) as En.
    { pose proof (count_total_nonneg ks).
      rewrite <- (Z2Nat.id (5 * count_total ks)) at 1 by lia.
      rewrite <- pow_IZR, <- INR_IZR_INZ. reflexivity. }
    assert (INR (Z.to_nat (5 * count_total ks)) = 5 * count_sum ks) as EK.
    { pose proof (count_total_nonneg ks).
      rewrite INR_IZR_INZ, Z2Nat.id by lia. rewrite mult_IZR, count_total_IZR. reflexivity. }
    assert (0 < 2 ^ (19 * n)) as P2 by (apply pow_lt; lra).
    assert (0 < INR n ^ Z.to_nat (5 * count_total ks)) as Pn by now apply pow_lt.
    pose proof (power_product_pos ks) as Pp.
    assert ((2 ^ (19 * Z.of_nat n) * power_product ks <= Z.of_nat n ^ (5 * count_total ks))%Z
            <-> 19 * INR n * ln 2 + 5 * klnk_sum ks <= 5 * count_sum ks * ln (INR n)) as ->.
    { split.
      - intros Hle. apply IZR_le in Hle. rewrite mult_IZR, E2, En in Hle.
        apply ln_le_iff in Hle; [|now apply Rmult_lt_0_compat|assumption].
        rewrite ln_mult, !ln_pow, power_product_ln, EK, mult_INR in Hle
          by (assumption || lra).
        replace (INR 19) with 19 in Hle by (simpl; lra). lra.
      - intros Hle. apply le_IZR. rewrite mult_IZR, E2, En.
        apply ln_le_iff; [now apply Rmult_lt_0_compat|assumption|].
        rewrite ln_mult, !ln_pow, power_product_ln, EK, mult_INR
          by (assumption || lra).
        replace (INR 19) with 19 by (simpl; lra). lra. }
    assert (0 < INR n * ln 2) as Hpos by now apply Rmult_lt_0_compat.
    split.
    + intros Hle. apply Rle_ge.
      apply (Rmult_le_reg_r (INR n * ln 2)); [assumption|]. rewrite HE. lra.
    + intros Hge. apply Rge_le in Hge.
      apply (Rmult_le_compat_r (INR n * ln 2)) in Hge; [|lra]. rewrite HE in Hge. lra.
Qed.

End EntropyFacts.

(** ** The scan of one file *)

(** *** The whitelist test *)

Lemma any_in_true (white_list : gset string) (s : string) :
  any_in white_list s = true <-> exists w, w ∈ white_list /\ contains w s = true.
Proof.
  unfold any_in. rewrite existsb_exists. split.
  - intros [w [Hin Hc]]. exists w. split; [|exact Hc].
    apply elem_of_elements. now apply list_elem_of_In.
  - intros [w [Hin Hc]]. exists w. split; [|exact Hc].
    apply list_elem_of_In. now apply elem_of_elements.
Qed.

Lemma any_in_false (white_list : gset string) (s : string) :
  any_in white_list s = false <-> forall w, w ∈ white_list -> contains w s = false.
Proof.
  rewrite <- not_true_iff_false, any_in_true. split.
  - intros Hno w Hin. destruct (contains w s) eqn:Hc; [|reflexivity].
    exfalso. apply Hno. now exists w.
  - intros Hall [w [Hin Hc]]. rewrite (Hall w Hin) in Hc. discriminate.
Qed.

Lemma any_in_mono (wl1 wl2 : gset string) (s : string) :
  wl1 ⊆ wl2 -> any_in wl1 s = true -> any_in wl2 s = true.
Proof.
  rewrite !any_in_true. intros Hsub [w [Hin Hc]]. exists w. split; [set_solver|exact Hc].
Qed.

Lemma any_in_proper (wl1 wl2 : gset string) (s : string) :
  wl1 = wl2 -> any_in wl1 s = any_in wl2 s.
Proof. now intros ->. Qed.

(** *** One line *)

Arguments regex_for_secrets : simpl never.
Arguments entropy_reaches_threshold : simpl never.
Arguments findall : simpl never.

Lemma elem_of_List_filter (f : string -> bool) (l : list string) (x : string) :
  x ∈ List.filter f l <-> x ∈ l /\ f x = true.
Proof. rewrite !list_elem_of_In. apply filter_In. Qed.

Lemma entropy_pass_elem (white_list : gset string) (line : string)
    (acc : list string) (x : string) :
  x ∈ entropy_pass white_list line acc
  <-> x ∈ acc
      \/ exists tok, tok ∈ split_ws line /\ x = strip strip_chars tok
           /\ any_in white_list (lower x) = false
           /\ entropy_reaches_threshold x = true.
Proof.
  unfold entropy_pass. generalize (split_ws line) as toks. intros toks.
  revert acc. induction toks as [|tok toks IH]; intros acc; simpl.
  - split; [now left|]. intros [H|[tok [H _]]]; [exact H|]. now apply elem_of_nil in H.
  - rewrite IH. clear IH. split.
    + intros [Hacc|[tok' [Hin Hrest]]].
      * destruct (any_in white_list (lower (strip strip_chars tok))) eqn:Hw; simpl in Hacc;
          [now left|].
        destruct (entropy_reaches_threshold (strip strip_chars tok)) eqn:He; [|now left].
        apply elem_of_app in Hacc as [Hacc|Hx]; [now left|].
        apply list_elem_of_singleton in Hx. subst x. right. exists tok.
        split; [apply list_elem_of_here|]. auto.
      * right. exists tok'. split; [now apply list_elem_of_further|exact Hrest].
    + intros [Hacc|[tok' [Hin [Hx [Hw He]]]]].
      * left. destruct (any_in white_list (lower (strip strip_chars tok))); simpl; [exact Hacc|].
        destruct (entropy_reaches_threshold (strip strip_chars tok)); [|exact Hacc].
        apply elem_of_app. now left.
      * apply elem_of_cons in Hin as [->|Hin].
        -- left. subst x. rewrite Hw, He. simpl. apply elem_of_app. right.
           apply list_elem_of_here.
        -- right. exists tok'. auto.
Qed.

Lemma scan_line_disabled (st : line_state) (line : string) :
  line_disabled line = true ->
  secrets_white_list (scan_line st line) = secrets_white_list st
  /\ high_entropy_strings (scan_line st line) = high_entropy_strings st
  /\ regex_secrets (scan_line st line) = regex_secrets st.
Proof.
  unfold line_disabled, scan_line. destruct (findall disable_regex line); [discriminate|].
  intros _. simpl. auto.
Qed.

Lemma scan_line_white_list (st : line_state) (line : string) :
  secrets_white_list (scan_line st line)
  = secrets_white_list st ∪ exemptions [line].
Proof.
  unfold scan_line. cbn [exemptions]. unfold line_disabled.
  destruct (regex_for_secrets line) as [ps fps].
  destruct (findall disable_regex line); cbn [secrets_white_list snd].
  - set_solver.
  - set_solver.
Qed.

Lemma scan_line_found (st : line_state) (line x : string) :
  x ∈ high_entropy_strings (scan_line st line) ++ regex_secrets (scan_line st line)
  <-> x ∈ high_entropy_strings st ++ regex_secrets st
      \/ reported_at (secrets_white_list st) line x.
Proof.
  unfold reported_at, scan_line, line_disabled.
  destruct (regex_for_secrets line) as [ps fps].
  destruct (findall disable_regex line) as [|m ms];
    cbn [high_entropy_strings regex_secrets secrets_white_list fst snd].
  - rewrite !elem_of_app, entropy_pass_elem, elem_of_List_filter, negb_true_iff.
    assert (false = false) by reflexivity. tauto.
  - split; [now left|]. intros [H|[H _]]; [exact H|discriminate].
Qed.

(** *** A sequence of lines *)

Lemma exemptions_app (l1 l2 : list string) :
  exemptions (l1 ++ l2) = exemptions l1 ∪ exemptions l2.
Proof.
  induction l1 as [|line l1 IH]; simpl; [set_solver|]. rewrite IH. set_solver.
Qed.

Lemma scan_lines_white_list (lines : list string) (st : line_state) :
  secrets_white_list (fold_left scan_line lines st)
  = secrets_white_list st ∪ exemptions lines.
Proof.
  revert st. induction lines as [|line lines IH]; intros st; simpl.
  - set_solver.
  - rewrite IH, scan_line_white_list. simpl. set_solver.
Qed.

Lemma scan_lines_found (lines : list string) (st : line_state) (x : string) :
  x ∈ high_entropy_strings (fold_left scan_line lines st)
      ++ regex_secrets (fold_left scan_line lines st)
  <-> x ∈ high_entropy_strings st ++ regex_secrets st
      \/ exists pre line post,
           lines = pre ++ line :: post
           /\ reported_at (secrets_white_list st ∪ exemptions pre) line x.
Proof.
  revert st. induction lines as [|line lines IH]; intros st; simpl.
  - split; [now left|]. intros [H|[pre [line [post [H _]]]]]; [exact H|].
    now destruct pre.
  - rewrite IH, scan_line_found. clear IH. split.
    + intros [[H|H]|[pre [l [post [-> H]]]]].
      * now left.
      * right. exists [], line, lines. split; [reflexivity|].
        simpl. now rewrite (right_id_L ∅ (∪)).
      * right. exists (line :: pre), l, post. split; [reflexivity|].
        rewrite scan_line_white_list in H.
        replace (secrets_white_list st ∪ exemptions (line :: pre))
          with (secrets_white_list st ∪ exemptions [line] ∪ exemptions pre); [exact H|].
        simpl. set_solver.
    + intros [H|[pre [l [post [Heq H]]]]].
      * left. now left.
      * destruct pre as [|p pre]; simpl in Heq; injection Heq as -> ->.
        -- left. right. simpl in H. now rewrite (right_id_L ∅ (∪)) in H.
        -- right. exists pre, l, post. split; [reflexivity|].
           rewrite scan_line_white_list.
           replace (secrets_white_list st ∪ exemptions [p] ∪ exemptions pre)
             with (secrets_white_list st ∪ exemptions (p :: pre)); [exact H|].
           simpl. set_solver.
Qed.

(** *** The findings of one file *)

Lemma scan_contents_found (set_iter : list string -> list string)
    (white_list : gset string) (context_source contents x : string) :
  x ∈ file_secrets_of (scan_contents set_iter white_list context_source contents)
  <-> exists pre line post,
        set_iter (split_on newline contents) = pre ++ line :: post
        /\ reported_at
             (white_list ∪ create_temp_white_list context_source ∪ exemptions pre)
             line x.
Proof.
  unfold file_secrets_of, scan_contents. rewrite elem_of_list_to_set, scan_lines_found.
  cbn [high_entropy_strings regex_secrets secrets_white_list app]. split.
  - intros [H|H]; [now apply elem_of_nil in H|exact H].
  - intros H. now right.
Qed.

Lemma exemptions_empty (lines : list string) :
  (forall line, line ∈ lines -> line_disabled line = false ->
                snd (regex_for_secrets line) = []) ->
  exemptions lines = ∅.
Proof.
  induction lines as [|line lines IH]; intros Hno; cbn [exemptions]; [reflexivity|].
  rewrite IH by (intros l Hl; apply Hno; now apply list_elem_of_further).
  destruct (line_disabled line) eqn:Hd; [set_solver|].
  rewrite (Hno line (list_elem_of_here _ _) Hd). set_solver.
Qed.

Lemma scan_contents_found_no_dates (set_iter : list string -> list string)
    (white_list : gset string) (context_source contents x : string) :
  (forall line, line ∈ set_iter (split_on newline contents) ->
                line_disabled line = false -> snd (regex_for_secrets line) = []) ->
  x ∈ file_secrets_of (scan_contents set_iter white_list context_source contents)
  <-> exists line, line ∈ set_iter (split_on newline contents)
        /\ reported_at (white_list ∪ create_temp_white_list context_source) line x.
Proof.
  intros Hno. rewrite scan_contents_found. split.
  - intros [pre [line [post [Heq H]]]]. exists line. split.
    + rewrite Heq. apply elem_of_app. right. apply list_elem_of_here.
    + rewrite exemptions_empty in H.
      * now rewrite (right_id_L ∅ (∪)) in H.
      * intros l Hl. apply Hno. rewrite Heq. apply elem_of_app. now left.
  - intros [line [Hin H]]. apply list_elem_of_split in Hin as [pre [post Heq]].
    exists pre, line, post. split; [exact Heq|].
    rewrite exemptions_empty.
    + now rewrite (right_id_L ∅ (∪)).
    + intros l Hl. apply Hno. rewrite Heq. apply elem_of_app. now left.
Qed.

(** C4, as amended.  For a file whose pattern matches, on the lines without
    the disable marker, are all in lowercase, the finding set holds exactly the
    candidates whose lowercased form contains no entry of the working
    whitelist as it stands when the line of the candidate is scanned.  For a
    pattern match this is the whitelist the scan of the file starts from, the
    contextual entries and the date matches of the lines visited before; for
    a punctuation-stripped token whose entropy reaches the threshold it is
    that whitelist extended by the date matches of the line itself.  No
    coverage check is made again when the report entry is built. *)
Theorem findings_are_line_time_survivors (set_iter : list string -> list string)
    (white_list : gset string) (context_source contents x : string) :
  (forall line m, line ∈ set_iter (split_on newline contents) ->
                  line_disabled line = false ->
                  m ∈ fst (regex_for_secrets line) -> lower m = m) ->
  x ∈ file_secrets_of (scan_contents set_iter white_list context_source contents)
  <-> exists pre line post,
        set_iter (split_on newline contents) = pre ++ line :: post
        /\ line_disabled line = false
        /\ let working :=
             white_list ∪ create_temp_white_list context_source ∪ exemptions pre in
           (x ∈ fst (regex_for_secrets line) /\ any_in working (lower x) = false)
           \/ (exists tok, tok ∈ split_ws line /\ x = strip strip_chars tok
                 /\ any_in (working ∪ list_to_set (snd (regex_for_secrets line)))
                           (lower x) = false
                 /\ entropy_reaches_threshold x = true).
Proof.
  intros Hlow. rewrite scan_contents_found. unfold reported_at. cbv zeta.
  split; intros [pre [line [post [Heq [Hd H]]]]]; exists pre, line, post;
    (split; [exact Heq|]); (split; [exact Hd|]);
    (destruct H as [[Hm Hw]|H]; [left|right; exact H]);
    (split; [exact Hm|]);
    assert (lower x = x) as Hx
      by (apply (Hlow line); [rewrite Heq; apply elem_of_app; right;
                              apply list_elem_of_here|exact Hd|exact Hm]).
  - now rewrite Hx.
  - now rewrite Hx in Hw.
Qed.

Lemma findings_are_line_time_survivors_witness :
  dated_url_text ∈ file_secrets_of (scan_contents first_seen ∅ dated_url_text dated_url_text)
  <-> exists pre line post,
        first_seen (split_on newline dated_url_text) = pre ++ line :: post
        /\ line_disabled line = false
        /\ ((dated_url_text ∈ fst (regex_for_secrets line)
             /\ any_in (∅ ∪ create_temp_white_list dated_url_text ∪ exemptions pre)
                       (lower dated_url_text) = false)
            \/ (exists tok, tok ∈ split_ws line /\ dated_url_text = strip strip_chars tok
                  /\ any_in (∅ ∪ create_temp_white_list dated_url_text ∪ exemptions pre
                               ∪ list_to_set (snd (regex_for_secrets line)))
                            (lower dated_url_text) = false
                  /\ entropy_reaches_threshold dated_url_text = true)).
Proof.
  apply (findings_are_line_time_survivors first_seen ∅ dated_url_text dated_url_text
           dated_url_text).
  intros line m Hl _ Hm.
  assert (first_seen (split_on newline dated_url_text) = [dated_url_text]) as E
    by (vm_compute; reflexivity).
  rewrite E in Hl. apply list_elem_of_singleton in Hl. subst line.
  assert (fst (regex_for_secrets dated_url_text) = [dated_url_text]) as E'
    by (vm_compute; reflexivity).
  rewrite E' in Hm. apply list_elem_of_singleton in Hm. subst m.
  vm_compute. reflexivity.
Defined.


(** C4, counterexample.  A URL that contains the date match of its own line
    is in the finding set although its lowercased form contains an entry of
    the whitelist the scan of the file ends with. *)
Lemma report_time_check_absent :
  let st := scan_contents first_seen ∅ dated_url_text dated_url_text in
  dated_url_text ∈ file_secrets_of st
  /\ any_in (secrets_white_list st) (lower dated_url_text) = true
  /\ file_secrets_of st <> report_time_filter st.
Proof.
  cbv zeta. split; [compute_done|]. split; [compute_done|]. compute_done.
Qed.

(** C9, as amended.  From the same working whitelist and the same text for
    the contextual entries, two visiting orders of the same lines give the
    same finding set, provided no visited line without the disable marker
    contains a date/time match. *)
Theorem findings_order_independent (iter1 iter2 : list string -> list string)
    (white_list : gset string) (context_source contents : string) :
  iter1 (split_on newline contents) ≡ₚ iter2 (split_on newline contents) ->
  (forall line, line ∈ iter1 (split_on newline contents) ->
                line_disabled line = false -> snd (regex_for_secrets line) = []) ->
  file_secrets_of (scan_contents iter1 white_list context_source contents)
  = file_secrets_of (scan_contents iter2 white_list context_source contents).
Proof.
  intros Hperm Hno. apply set_eq. intros x.
  rewrite !scan_contents_found_no_dates.
  - split; intros [line [Hin H]]; exists line; split; try exact H.
    + now rewrite <- Hperm.
    + now rewrite Hperm.
  - intros line Hin. apply Hno. now rewrite Hperm.
  - exact Hno.
Qed.


Lemma findings_order_independent_witness :
  file_secrets_of (scan_contents first_seen ∅ two_line_text two_line_text)
  = file_secrets_of (scan_contents last_first ∅ two_line_text two_line_text).
Proof.
  apply findings_order_independent.
  - unfold last_first, first_seen. rewrite <- (Permutation_rev (remove_dups _)). reflexivity.
  - intros line Hin Hd.
    assert (first_seen (split_on newline two_line_text)
            = ["token: ax7$Qz9!mP2#vL"; "see http://h.io/x"]) as E by (vm_compute; reflexivity).
    rewrite E in Hin.
    apply elem_of_cons in Hin as [->|Hin]; [vm_compute; reflexivity|].
    apply list_elem_of_singleton in Hin as ->. vm_compute. reflexivity.
Defined.


(** C9, counterexample.  A file of two lines, one with a URL that contains
    the date match of the other: visiting the URL line first reports the URL,
    visiting it last does not. *)
Lemma line_order_matters :
  first_seen (split_on newline order_text) ≡ₚ last_first (split_on newline order_text)
  /\ file_secrets_of (scan_contents first_seen ∅ order_text order_text)
     = {[ "http://h.io/2024-01-05T" ]}
  /\ file_secrets_of (scan_contents last_first ∅ order_text order_text) = ∅
  /\ file_secrets_of (scan_contents first_seen ∅ order_text order_text)
     <> file_secrets_of (scan_contents last_first ∅ order_text order_text).
Proof.
  split; [|split; [compute_done|split; [compute_done|compute_done]]].
  unfold last_first, first_seen. rewrite <- (Permutation_rev (remove_dups _)). reflexivity.
Qed.


(** ** The run over the files *)

Lemma bind_Ok {A B : Type} (m : result A) (f : A -> result B) (b : B) :
  m ≫= f = Ok b <-> exists a, m = Ok a /\ f a = Ok b.
Proof.
  destruct m as [a|e]; cbn.
  - split; [intros H; now exists a|]. intros [a' [[= <-] H]]. exact H.
  - split; [discriminate|]. intros [a [[=] _]].
Qed.

Section RunFacts.
Variable set_iter : list string -> list string.
Variable env : environment.

Lemma scan_file_Ok (st st' : run_state) (file_path : string) :
  scan_file set_iter env st file_path = Ok st'
  <-> exists y ls,
        file_scan set_iter env st file_path = Ok (y, ls)
        /\ st' = {| run_white_list := secrets_white_list ls;
                    yml_file_contents := Some y;
                    secrets_found :=
                      if has_findings ls
                      then <[last_component file_path := file_secrets_of ls]>
                             (secrets_found st)
                      else secrets_found st |}.
Proof.
  unfold scan_file. rewrite bind_Ok. split.
  - intros [[y ls] [Hf [= <-]]]. now exists y, ls.
  - intros [y [ls [Hf ->]]]. now exists (y, ls).
Qed.

Lemma scan_file_other (st st' : run_state) (file_path b : string) :
  scan_file set_iter env st file_path = Ok st' ->
  last_component file_path <> b ->
  secrets_found st' !! b = secrets_found st !! b.
Proof.
  intros [y [ls [_ ->]]]%scan_file_Ok Hne. cbn.
  destruct (has_findings ls); [|reflexivity]. now apply lookup_insert_ne.
Qed.

Lemma scan_files_other (paths : list string) (st st' : run_state) (b : string) :
  scan_files set_iter env st paths = Ok st' ->
  (forall q, q ∈ paths -> last_component q <> b) ->
  secrets_found st' !! b = secrets_found st !! b.
Proof.
  revert st. induction paths as [|p paths IH]; intros st; cbn [scan_files].
  - now intros [= ->].
  - intros [st1 [H1 H2]]%bind_Ok Hne.
    rewrite (IH st1 H2) by (intros q Hq; apply Hne; now apply list_elem_of_further).
    apply (scan_file_other _ _ _ _ H1). apply Hne. apply list_elem_of_here.
Qed.

Lemma scan_files_app (l1 l2 : list string) (st : run_state) :
  scan_files set_iter env st (l1 ++ l2)
  = scan_files set_iter env st l1 ≫= fun st1 => scan_files set_iter env st1 l2.
Proof.
  revert st. induction l1 as [|p l1 IH]; intros st; cbn [scan_files app]; [reflexivity|].
  destruct (scan_file set_iter env st p) as [st1|e]; cbn; [apply IH|reflexivity].
Qed.

Lemma scan_file_entry (st st' : run_state) (file_path : string) (y : option string)
    (ls : line_state) :
  file_scan set_iter env st file_path = Ok (y, ls) ->
  has_findings ls = true ->
  scan_file set_iter env st file_path = Ok st' ->
  secrets_found st' !! last_component file_path = Some (file_secrets_of ls).
Proof.
  intros Hf Hh [y' [ls' [Hf' ->]]]%scan_file_Ok. rewrite Hf in Hf'.
  injection Hf' as <- <-. cbn. rewrite Hh. apply lookup_insert_eq.
Qed.

(** C10.  The report is keyed by the last path component.  When two scanned
    paths share it and both yield findings, the entry after the run is the
    finding set of the later path (no path scanned after it carrying that
    name), and a finding of the earlier path that the later one does not have
    is absent from the entry. *)
Theorem report_entry_is_later_path (st0 st2 st4 : run_state)
    (p1 p2 : string) (mid post : list string)
    (y1 y2 : option string) (ls1 ls2 : line_state) :
  last_component p1 = last_component p2 ->
  file_scan set_iter env st0 p1 = Ok (y1, ls1) -> has_findings ls1 = true ->
  scan_files set_iter env st0 (p1 :: mid) = Ok st2 ->
  file_scan set_iter env st2 p2 = Ok (y2, ls2) -> has_findings ls2 = true ->
  scan_files set_iter env st0 (p1 :: mid ++ p2 :: post) = Ok st4 ->
  (forall q, q ∈ post -> last_component q <> last_component p2) ->
  secrets_found st4 !! last_component p2 = Some (file_secrets_of ls2)
  /\ forall x, x ∈ file_secrets_of ls1 -> x ∉ file_secrets_of ls2 ->
       forall found, secrets_found st4 !! last_component p1 = Some found -> x ∉ found.
Proof.
  intros Hname Hf1 Hh1 Hrun2 Hf2 Hh2 Hrun4 Hpost.
  assert (secrets_found st4 !! last_component p2 = Some (file_secrets_of ls2)) as Hentry.
  { change (p1 :: mid ++ p2 :: post) with ((p1 :: mid) ++ p2 :: post) in Hrun4.
    rewrite scan_files_app, Hrun2 in Hrun4. cbn [mbind result_bind scan_files] in Hrun4.
    apply bind_Ok in Hrun4 as [st3 [H3 H4]].
    rewrite (scan_files_other _ _ _ _ H4 Hpost).
    now apply (scan_file_entry st2 st3 p2 y2 ls2). }
  split; [exact Hentry|].
  intros x _ Hx found Hfound. rewrite Hname, Hentry in Hfound.
  injection Hfound as <-. exact Hx.
Qed.

End RunFacts.



Lemma report_entry_is_later_path_witness :
  search_potential_secrets first_seen same_name_env ["d1/a.py"; "d2/a.py"]
  = Ok {[ "a.py" := {[ "http://h.io/x" ]} ]}
  /\ exists st4 ls2,
       scan_files first_seen same_name_env empty_run ["d1/a.py"; "d2/a.py"] = Ok st4
       /\ file_secrets_of ls2 = {[ "http://h.io/x" ]}
       /\ secrets_found st4 !! "a.py" = Some (file_secrets_of ls2).
Proof.
  split; [compute_done|].
  destruct (scan_files first_seen same_name_env empty_run ["d1/a.py"]) as [st2|e] eqn:E2;
    [|vm_compute in E2; discriminate].
  destruct (scan_files first_seen same_name_env empty_run ["d1/a.py"; "d2/a.py"])
    as [st4|e] eqn:E4; [|vm_compute in E4; discriminate].
  exists st4, (scan_contents first_seen ∅ "see http://h.io/x" "see http://h.io/x").
  split; [reflexivity|]. split; [compute_done|].
  refine (proj1 (report_entry_is_later_path first_seen same_name_env empty_run st2 st4
            "d1/a.py" "d2/a.py" [] [] None None
            (scan_contents first_seen ∅ "token: ax7$Qz9!mP2#vL" "token: ax7$Qz9!mP2#vL")
            (scan_contents first_seen ∅ "see http://h.io/x" "see http://h.io/x")
            _ _ _ E2 _ _ E4 _)).
  - reflexivity.
  - vm_compute. reflexivity.
  - vm_compute. reflexivity.
  - vm_compute in E2. injection E2 as <-. vm_compute. reflexivity.
  - vm_compute. reflexivity.
  - intros q Hq. now apply elem_of_nil in Hq.
Defined.


(** ** Scenarios *)


(** C8.  With the whitelist [api.key], the line [token: ax7$Qz9!mP2#vL]
    yields the token as a finding of the entropy pass: no recognizer matches
    the line, no whitelist entry occurs in the lowercased token, and its
    entropy is at least 3.8.  The line [token: api.key.placeholder] yields no
    finding, and it is the whitelist test that stops its token: [api.key]
    occurs in the lowercased token, so the test of the whitelist holds for it,
    and with this whitelist the entropy pass appends no string whose
    lowercased form holds [api.key], whatever its entropy.  The line
    [token: api.key.ax7$Qz9!mP2#vL], whose token has an entropy above the
    threshold, shows it: it yields no finding with this whitelist, and its
    token with the empty one. *)
Theorem scenario_api_key (set_iter : list string -> list string) :
  (forall line, set_iter [line] = [line]) ->
  let white_list : gset string := list_to_set ["api.key"] in
  file_secrets_of (scan_contents set_iter white_list random_line random_line)
  = {[ random_token ]}
  /\ random_token ∈ entropy_pass white_list random_line []
  /\ fst (regex_for_secrets random_line) = []
  /\ any_in white_list (lower random_token) = false
  /\ (calculate_shannon_entropy random_token >= ENTROPY_THRESHOLD)%R
  /\ file_secrets_of (scan_contents set_iter white_list placeholder_line placeholder_line)
     = ∅
  /\ split_ws placeholder_line = ["token:"; "api.key.placeholder"]
  /\ contains "api.key" (lower "api.key.placeholder") = true
  /\ any_in white_list (lower (strip strip_chars "api.key.placeholder")) = true
  /\ (forall line x : string,
        contains "api.key" (lower x) = true ->
        x ∉ entropy_pass white_list line [])
  /\ (calculate_shannon_entropy keyed_token >= ENTROPY_THRESHOLD)%R
  /\ file_secrets_of (scan_contents set_iter white_list keyed_line keyed_line) = ∅
  /\ file_secrets_of (scan_contents set_iter ∅ keyed_line keyed_line)
     = {[ keyed_token ]}.
Proof.
  intros Hone. cbv zeta.
  assert (split_on newline random_line = [random_line]) as E1 by (vm_compute; reflexivity).
  assert (split_on newline placeholder_line = [placeholder_line]) as E2
    by (vm_compute; reflexivity).
  assert (split_on newline keyed_line = [keyed_line]) as E3 by (vm_compute; reflexivity).
  split; [unfold scan_contents; rewrite E1, Hone; compute_done|].
  split; [compute_done|].
  split; [vm_compute; reflexivity|].
  split; [vm_compute; reflexivity|].
  split; [apply entropy_reaches_threshold_spec; vm_compute; reflexivity|].
  split; [unfold scan_contents; rewrite E2, Hone; compute_done|].
  split; [vm_compute; reflexivity|].
  split; [vm_compute; reflexivity|].
  split; [vm_compute; reflexivity|].
  split.
  { intros line x Hc Hin. apply entropy_pass_elem in Hin as [Hin|(tok & _ & _ & Hw & _)].
    - now apply elem_of_nil in Hin.
    - apply any_in_false with (w := "api.key") in Hw; [congruence|].
      apply elem_of_list_to_set, list_elem_of_here. }
  split; [apply entropy_reaches_threshold_spec; vm_compute; reflexivity|].
  split; [unfold scan_contents; rewrite E3, Hone; compute_done|].
  unfold scan_contents; rewrite E3, Hone; compute_done.
Qed.

Lemma scenario_api_key_witness :
  file_secrets_of (scan_contents first_seen (list_to_set ["api.key"]) random_line random_line)
  = {[ random_token ]}
  /\ file_secrets_of
       (scan_contents first_seen (list_to_set ["api.key"]) placeholder_line placeholder_line)
     = ∅
  /\ any_in (list_to_set ["api.key"]) (lower (strip strip_chars "api.key.placeholder"))
     = true
  /\ file_secrets_of
       (scan_contents first_seen (list_to_set ["api.key"]) keyed_line keyed_line)
     = ∅
  /\ file_secrets_of (scan_contents first_seen ∅ keyed_line keyed_line)
     = {[ keyed_token ]}.
Proof.
  pose proof (scenario_api_key first_seen (fun line => eq_refl)) as H. cbv zeta in H.
  repeat (split; [apply H|]). apply H.
Defined.


(** C1, evaluated on a run of two files.  The token of [b.py] is covered by
    no persistent entry and by no entry derived from [b.py]; scanned alone,
    [b.py] is reported.  Scanned after [a.py], whose text yields the
    contextual entries [ax7] and [zz], it is not: the entries of [a.py] are
    still in the working whitelist. *)

Theorem contextual_entries_leak :
  create_temp_white_list "contextPath: ax7.zz" = {[ "ax7"; "zz" ]}
  /\ create_temp_white_list random_line = ∅
  /\ contains "ax7" (lower random_token) = true
  /\ search_potential_secrets first_seen leak_env ["b.py"]
     = Ok {[ "b.py" := {[ random_token ]} ]}
  /\ search_potential_secrets first_seen leak_env ["a.py"; "b.py"] = Ok ∅.
Proof.
  split; [compute_done|]. split; [compute_done|]. split; [vm_compute; reflexivity|].
  split; compute_done.
Qed.

(** C2, evaluated on a file whose first line carries both a context path and
    the disable marker.  The marked line is skipped by the loop, yet its
    context path has already seeded the whitelist: the token of the second
    line is not reported, while it is reported for the text without the
    marked line. *)

Theorem disabled_line_feeds_context :
  line_disabled "contextPath: ax7.zz # disable-secrets-detection" = true
  /\ split_on newline marked_text
     = ["contextPath: ax7.zz # disable-secrets-detection"; random_line]
  /\ file_secrets_of (scan_contents first_seen ∅ marked_text marked_text) = ∅
  /\ file_secrets_of (scan_contents last_first ∅ marked_text marked_text) = ∅
  /\ file_secrets_of (scan_contents first_seen ∅ random_line random_line)
     = {[ random_token ]}
  /\ search_potential_secrets first_seen (env_of [("a.py", marked_text)] []) ["a.py"]
     = Ok ∅
  /\ search_potential_secrets first_seen (env_of [("a.py", random_line)] []) ["a.py"]
     = Ok {[ "a.py" := {[ random_token ]} ]}.
Proof.
  split; [vm_compute; reflexivity|]. split; [vm_compute; reflexivity|].
  split; [compute_done|]. split; [compute_done|]. split; [compute_done|].
  split; compute_done.
Qed.

(** C3, evaluated on a run with a file that is not a script.  Scanned first,
    [b.json] makes the run end with [UnboundLocalError].  Scanned after
    [a.py], whose definition file [a.yml] has no context path, its contextual
    whitelist is taken from the text of [a.yml] and not from its own text:
    its token is reported although its own text has the context path
    [ax7.zz], which would cover it. *)


Theorem stale_yml_contents :
  search_potential_secrets first_seen stale_env ["b.json"] = Raise UnboundLocalError
  /\ splitext "b.json" = ("b", ".json")
  /\ create_temp_white_list "name: a" = ∅
  /\ file_secrets_of (scan_contents first_seen ∅ own_context_text own_context_text) = ∅
  /\ search_potential_secrets first_seen stale_env ["a.py"; "b.json"]
     = Ok {[ "b.json" := {[ random_token ]} ]}.
Proof.
  split; [compute_done|]. split; [vm_compute; reflexivity|]. split; [compute_done|].
  split; compute_done.
Qed.

(** C5, evaluated on a date/time literal of high entropy.  The literal is
    matched by the date recognizer only and is added to the working whitelist
    before the entropy pass, but the entry keeps its capital letters and so
    does not occur in the lowercased token: the literal is reported, and it is
    reported again when it occurs a second time in the file, in either
    visiting order. *)


Theorem date_literal_reported :
  regex_for_secrets date_literal = ([], [date_literal])
  /\ date_literal ∈ secrets_white_list
                      (scan_contents first_seen ∅ date_literal date_literal)
  /\ any_in {[ date_literal ]} (lower date_literal) = false
  /\ (calculate_shannon_entropy date_literal >= ENTROPY_THRESHOLD)%R
  /\ file_secrets_of (scan_contents first_seen ∅ date_literal date_literal)
     = {[ date_literal ]}
  /\ search_potential_secrets first_seen (env_of [("a.py", date_literal)] []) ["a.py"]
     = Ok {[ "a.py" := {[ date_literal ]} ]}
  /\ file_secrets_of (scan_contents first_seen ∅ date_twice_text date_twice_text)
     = {[ date_literal ]}
  /\ file_secrets_of (scan_contents last_first ∅ date_twice_text date_twice_text)
     = {[ date_literal ]}.
Proof.
  split; [vm_compute; reflexivity|]. split; [compute_done|].
  split; [vm_compute; reflexivity|].
  split; [apply entropy_reaches_threshold_spec; vm_compute; reflexivity|].
  split; [compute_done|]. split; [compute_done|]. split; compute_done.
Qed.

(** C6, evaluated on a URL in mixed case.  The whitelist entry
    [example.com] occurs case-insensitively in the token
    [http://Example.com/login], and the entropy pass skips the token for that
    reason, yet the URL recognizer's match is compared to the whitelist
    without lowercasing and is reported. *)

Theorem whitelisted_url_reported :
  let white_list : gset string := list_to_set ["example.com"] in
  let line := "see http://Example.com/login" in
  mixed_case_url ∈ split_ws line
  /\ contains "example.com" (lower mixed_case_url) = true
  /\ any_in white_list (lower mixed_case_url) = true
  /\ any_in white_list mixed_case_url = false
  /\ mixed_case_url ∈ file_secrets_of (scan_contents first_seen white_list line line)
  /\ search_potential_secrets first_seen (env_of [("a.py", line)] ["example.com"]) ["a.py"]
     = Ok {[ "a.py" := {[ mixed_case_url ]} ]}.
Proof.
  cbv zeta. split; [compute_done|]. split; [vm_compute; reflexivity|].
  split; [vm_compute; reflexivity|]. split; [vm_compute; reflexivity|].
  split; compute_done.
Qed.

(** ** The matcher *)

Lemma rmatch_rep (lo : nat) (hi : option nat) (r : regex) (s : string)
    (k : string -> option string) :
  rmatch (RRep lo hi r) s k = rep_loop (rmatch r) k (S (String.length s)) lo hi s.
Proof. reflexivity. Qed.

Lemma append_nil_l (s : string) : ("" ++ s)%string = s.
Proof. reflexivity. Qed.

Lemma append_cons (c : ascii) (a b : string) :
  (String c a ++ b)%string = String c (a ++ b).
Proof. reflexivity. Qed.

Lemma string_app_assoc (a b c : string) : ((a ++ b) ++ c = a ++ (b ++ c))%string.
Proof.
  induction a as [|x a IH]; rewrite ?append_nil_l, ?append_cons; [reflexivity|now rewrite IH].
Qed.

Lemma string_app_nil_r (a : string) : (a ++ "")%string = a.
Proof.
  induction a as [|x a IH]; rewrite ?append_nil_l, ?append_cons; [reflexivity|now rewrite IH].
Qed.

Lemma string_app_length (a b : string) :
  String.length (a ++ b) = String.length a + String.length b.
Proof.
  induction a as [|x a IH]; rewrite ?append_nil_l, ?append_cons; [reflexivity|].
  cbn [String.length]. now rewrite IH.
Qed.

Lemma concat_cons_empty (w : string) (ws : list string) :
  String.concat "" (w :: ws) = (w ++ String.concat "" ws)%string.
Proof. destruct ws; cbn [String.concat]; [now rewrite string_app_nil_r|reflexivity]. Qed.

Section Soundness.
Variable L : string -> Prop.
Variable m : string -> (string -> option string) -> option string.
Hypothesis m_sound : forall s k rest, m s k = Some rest ->
  exists w mid, s = (w ++ mid)%string /\ L w /\ k mid = Some rest.

Lemma rep_loop_sound (k : string -> option string) (fuel lo : nat) (hi : option nat)
    (s rest : string) :
  rep_loop m k fuel lo hi s = Some rest ->
  exists ws mid, s = (String.concat "" ws ++ mid)%string
    /\ (lo <= List.length ws)%nat
    /\ match hi with Some h => (List.length ws <= h)%nat | None => True end
    /\ Forall L ws /\ k mid = Some rest.
Proof.
  revert lo hi s. induction fuel as [|fuel IH]; intros lo hi s.
  - simpl. destruct lo; [|discriminate]. intros Hk. exists [], s. simpl.
    repeat split; [lia|destruct hi; [lia|exact I]|constructor|exact Hk].
  - assert (match lo with O => k s | S _ => None end = Some rest ->
            exists ws mid, s = (String.concat "" ws ++ mid)%string
              /\ (lo <= List.length ws)%nat
              /\ match hi with Some h => (List.length ws <= h)%nat | None => True end
              /\ Forall L ws /\ k mid = Some rest) as Hstop.
    { destruct lo; [|discriminate]. intros Hk. exists [], s. simpl.
      repeat split; [lia|destruct hi; [lia|exact I]|constructor|exact Hk]. }
    cbn [rep_loop]. destruct (may_iterate hi) eqn:Hit; [|exact Hstop].
    destruct (m s _) as [rest'|] eqn:Hm; [|exact Hstop].
    intros [= ->]. apply m_sound in Hm as [w [mid1 [-> [Hw Hk]]]].
    destruct (String.length mid1 <? String.length (w ++ mid1))%nat; [|discriminate].
    apply IH in Hk as [ws [mid [-> [Hlo [Hhi [Hall Hk]]]]]].
    exists (w :: ws), mid. split.
    { now rewrite concat_cons_empty, string_app_assoc. }
    split; [simpl; lia|]. split.
    { destruct hi as [[|h]|]; simpl in *; [discriminate|lia|exact I]. }
    split; [now constructor|exact Hk].
Qed.

End Soundness.

(** Whatever [rmatch] consumes is a word of the pattern. *)
Lemma rmatch_sound (r : regex) : forall (s : string) (k : string -> option string)
    (rest : string),
  rmatch r s k = Some rest ->
  exists w mid, s = (w ++ mid)%string /\ lang r w /\ k mid = Some rest.
Proof.
  induction r as [|p|r1 IH1 r2 IH2|r1 IH1 r2 IH2|lo hi r1 IH1]; intros s k rest; cbn [rmatch lang].
  - intros Hk. exists "", s. auto.
  - destruct s as [|c s]; [discriminate|]. destruct (p c) eqn:Hp; [|discriminate].
    intros Hk. exists (String c ""), s. split; [reflexivity|]. split; [|exact Hk].
    now exists c.
  - intros H. apply IH1 in H as [w1 [mid1 [-> [H1 H]]]].
    apply IH2 in H as [w2 [mid [-> [H2 Hk]]]].
    exists (w1 ++ w2)%string, mid. split; [now rewrite string_app_assoc|].
    split; [|exact Hk]. now exists w1, w2.
  - destruct (rmatch r1 s k) as [rest'|] eqn:H1.
    + intros [= ->]. apply IH1 in H1 as [w [mid [-> [Hw Hk]]]]. exists w, mid. auto.
    + intros H2. apply IH2 in H2 as [w [mid [-> [Hw Hk]]]]. exists w, mid. auto.
  - intros H. change (rep_loop (rmatch r1) k (S (String.length s)) lo hi s = Some rest) in H.
    apply (rep_loop_sound (lang r1) (rmatch r1) IH1) in H
      as [ws [mid [-> [Hlo [Hhi [Hall Hk]]]]]].
    exists (String.concat "" ws), mid. split; [reflexivity|]. split; [|exact Hk].
    now exists ws.
Qed.

Lemma substring_app_prefix (w mid : string) :
  substring 0 (String.length w) (w ++ mid) = w.
Proof.
  induction w as [|c w IH]; rewrite ?append_nil_l, ?append_cons; cbn [String.length substring].
  - now destruct mid.
  - now rewrite IH.
Qed.

(** A match at the start of a text is a word of the pattern and a prefix of
    the text. *)
Lemma match_here_sound (r : regex) (s m : string) :
  match_here r s = Some m ->
  lang r m /\ exists rest, s = (m ++ rest)%string.
Proof.
  unfold match_here. destruct (rmatch r s Some) as [rest|] eqn:H; [|discriminate].
  apply rmatch_sound in H as [w [mid [-> [Hw [= ->]]]]]. intros [= <-].
  rewrite string_app_length, Nat.add_sub, substring_app_prefix.
  split; [exact Hw|now exists rest].
Qed.

Lemma findall_aux_sound (r : regex) (s : string) : forall (skip : nat) (m : string),
  m ∈ findall_aux r s skip ->
  lang r m /\ exists pre post, s = (pre ++ m ++ post)%string.
Proof.
  induction s as [|c s IH]; intros skip m.
  - destruct skip; cbn [findall_aux]; [|intros H; now apply elem_of_nil in H].
    destruct (match_here r "") as [m0|] eqn:Hm; [|intros H; now apply elem_of_nil in H].
    intros ->%list_elem_of_singleton. apply match_here_sound in Hm as [Hl [rest Hr]].
    split; [exact Hl|]. now exists "", rest.
  - assert (forall n, m ∈ findall_aux r s n ->
              lang r m /\ exists pre post, String c s = (pre ++ m ++ post)%string) as Hrec.
    { intros n Hn. apply IH in Hn as [Hl [pre [post ->]]]. split; [exact Hl|].
      now exists (String c pre), post. }
    destruct skip; cbn [findall_aux]; [|apply Hrec].
    destruct (match_here r (String c s)) as [m0|] eqn:Hm; [|apply Hrec].
    intros [->|Hin]%elem_of_cons; [|now apply Hrec in Hin].
    apply match_here_sound in Hm as [Hl [rest Hr]]. split; [exact Hl|].
    now exists "", rest.
Qed.

(** Every string [re.findall] returns is a word of the pattern that occurs in
    the text. *)
Lemma findall_sound (r : regex) (s m : string) :
  m ∈ findall r s -> lang r m /\ exists pre post, s = (pre ++ m ++ post)%string.
Proof. apply findall_aux_sound. Qed.

(** ** Substrings *)

Lemma prefix_spec (a s : string) :
  String.prefix a s = true <-> exists post, s = (a ++ post)%string.
Proof.
  revert s. induction a as [|c a IH]; intros s.
  - destruct s; simpl; split; eauto.
  - destruct s as [|d s]; simpl.
    + split; [discriminate|]. intros [post H]. discriminate.
    + destruct (ascii_dec c d) as [->|Hne].
      * rewrite IH. split; intros [post H]; exists post.
        -- now rewrite H.
        -- rewrite append_cons in H. now injection H.
      * split; [discriminate|]. intros [post H]. rewrite append_cons in H.
        injection H as H _. congruence.
Qed.

Lemma contains_spec (sub s : string) :
  contains sub s = true <-> exists pre post, s = (pre ++ sub ++ post)%string.
Proof.
  induction s as [|c s IH]; cbn [contains]; rewrite orb_true_iff, prefix_spec.
  - split.
    + intros [[post H]|H]; [|discriminate]. now exists "", post.
    + intros [pre [post H]]. left. destruct pre; [now exists post|discriminate].
  - rewrite IH. split.
    + intros [[post H]|[pre [post H]]]; [now exists "", post|].
      exists (String c pre), post. now rewrite H.
    + intros [[|d pre] [post H]]; [left; now exists post|].
      right. rewrite append_cons in H. injection H as _ H. now exists pre, post.
Qed.

Lemma all_chars_app (p : ascii -> bool) (a b : string) :
  all_chars p (a ++ b) = all_chars p a && all_chars p b.
Proof.
  induction a as [|c a IH]; rewrite ?append_nil_l, ?append_cons; cbn [all_chars];
    [reflexivity|]. now rewrite IH, andb_assoc.
Qed.

Lemma all_chars_contains (p : ascii -> bool) (sub s : string) :
  contains sub s = true -> all_chars p s = true -> all_chars p sub = true.
Proof.
  intros [pre [post ->]]%contains_spec. rewrite !all_chars_app, !andb_true_iff. tauto.
Qed.

Lemma all_chars_lower (q : ascii -> bool) (s : string) :
  all_chars (fun c => q (lower_char c)) s = all_chars q (lower s).
Proof. induction s as [|c s IH]; cbn [all_chars lower]; [reflexivity|now rewrite IH]. Qed.

Lemma all_chars_weaken (p q : ascii -> bool) (s : string) :
  (forall c, p c = true -> q c = true) -> all_chars p s = true -> all_chars q s = true.
Proof.
  intros Hpq. induction s as [|c s IH]; cbn [all_chars]; [reflexivity|].
  rewrite !andb_true_iff. intros [Hc Hs]. auto.
Qed.

Lemma all_chars_lstrip (p : ascii -> bool) (chars s : string) :
  all_chars p s = true -> all_chars p (lstrip chars s) = true.
Proof.
  induction s as [|c s IH]; cbn [lstrip all_chars]; [reflexivity|].
  rewrite andb_true_iff. intros [Hc Hs]. destruct (one_of chars c); [auto|].
  cbn [all_chars]. now rewrite Hc, Hs.
Qed.

Lemma all_chars_rstrip (p : ascii -> bool) (chars s : string) :
  all_chars p s = true -> all_chars p (rstrip chars s) = true.
Proof.
  induction s as [|c s IH]; cbn [rstrip all_chars]; [reflexivity|].
  rewrite andb_true_iff. intros [Hc Hs]. specialize (IH Hs).
  destruct (rstrip chars s) as [|d r].
  - destruct (one_of chars c); cbn [all_chars]; [reflexivity|now rewrite Hc].
  - cbn [all_chars] in *. now rewrite Hc, IH.
Qed.

Lemma all_chars_strip (p : ascii -> bool) (chars s : string) :
  all_chars p s = true -> all_chars p (strip chars s) = true.
Proof. intros H. unfold strip. now apply all_chars_rstrip, all_chars_lstrip. Qed.

(** The tokens [split] returns hold no whitespace and are not empty. *)
Lemma split_ws_tokens (s tok : string) :
  tok ∈ split_ws s ->
  tok <> EmptyString /\ all_chars (fun c => negb (is_space c)) tok = true.
Proof.
  revert tok. induction s as [|c s IH]; intros tok; cbn [split_ws].
  - intros H. now apply elem_of_nil in H.
  - destruct (is_space c) eqn:Hc; [apply IH|].
    destruct s as [|c' s'].
    + intros ->%list_elem_of_singleton. split; [discriminate|].
      cbn [all_chars]. now rewrite Hc.
    + destruct (is_space c') eqn:Hc'.
      * intros [->|Hin]%elem_of_cons; [|now apply IH].
        split; [discriminate|]. cbn [all_chars]. now rewrite Hc.
      * destruct (split_ws (String c' s')) as [|w ws] eqn:Hsp.
        -- intros ->%list_elem_of_singleton. split; [discriminate|].
           cbn [all_chars]. now rewrite Hc.
        -- intros [->|Hin]%elem_of_cons.
           ++ split; [discriminate|]. cbn [all_chars]. rewrite Hc.
              apply (IH w). apply list_elem_of_here.
           ++ apply IH. now apply list_elem_of_further.
Qed.

Lemma ascii_forallb (f : ascii -> bool) :
  forallb (fun n => f (ascii_of_nat n)) (seq 0 256) = true -> forall c, f c = true.
Proof.
  intros H c. rewrite forallb_forall in H. rewrite <- (ascii_nat_embedding c).
  apply H. apply in_seq. pose proof (nat_ascii_bounded c). lia.
Qed.

Lemma lower_char_no_separator (c : ascii) :
  is_space c = false -> date_separator (lower_char c) = false.
Proof.
  intros Hc.
  pose proof (ascii_forallb
                (fun c => is_space c || negb (date_separator (lower_char c)))) as H.
  specialize (H ltac:(vm_compute; reflexivity) c). cbv beta in H.
  rewrite Hc in H. now apply negb_true_iff in H.
Qed.

(** A lowercased, stripped token holds no capital [T] and no [\s]
    character. *)
Lemma token_no_separator (line tok : string) :
  tok ∈ split_ws line ->
  all_chars (fun c => negb (date_separator c)) (lower (strip strip_chars tok)) = true.
Proof.
  intros [_ Htok]%split_ws_tokens. rewrite <- all_chars_lower.
  apply all_chars_strip. revert Htok. apply all_chars_weaken.
  intros c Hc. apply negb_true_iff in Hc. now rewrite lower_char_no_separator.
Qed.

(** ** What the recognizers return *)

Lemma lang_first (r : regex) : forall w : string,
  lang r w ->
  match w with
  | EmptyString => nullable r = true
  | String c _ => first_char r c = true
  end.
Proof.
  induction r as [|p|r1 IH1 r2 IH2|r1 IH1 r2 IH2|lo hi r1 IH1]; intros w; cbn [lang nullable first_char].
  - now intros ->.
  - now intros [c [-> Hc]].
  - intros [w1 [w2 [-> [H1 H2]]]]. apply IH1 in H1. apply IH2 in H2.
    destruct w1 as [|c w1]; rewrite ?append_nil_l, ?append_cons.
    + destruct w2; rewrite H1; [exact H2|]. rewrite H2. apply orb_true_r.
    + now rewrite H1.
  - intros [H|H]; [apply IH1 in H|apply IH2 in H]; destruct w; rewrite H;
      auto using orb_true_r.
  - intros [ws [-> [Hlo [_ Hall]]]].
    destruct ws as [|w0 ws0].
    { cbn [String.concat]. destruct lo; [reflexivity|simpl in Hlo; lia]. }
    assert (match String.concat "" (w0 :: ws0) with
            | "" => nullable r1 = true
            | String c _ => first_char r1 c = true
            end) as Hrec.
    { clear Hlo. revert Hall. generalize w0. induction ws0 as [|w1 ws1 IHws]; intros w Hall.
      - cbn [String.concat]. apply IH1. now inversion Hall.
      - rewrite concat_cons_empty. inversion Hall as [|? ? Hw Hall']; subst.
        apply IH1 in Hw. destruct w as [|c w]; rewrite ?append_nil_l, ?append_cons;
          [now apply IHws|exact Hw]. }
    destruct (String.concat "" (w0 :: ws0)); [|exact Hrec]. rewrite Hrec. apply orb_true_r.
Qed.

Lemma regex_for_secrets_fst (line x : string) :
  x ∈ fst (regex_for_secrets line)
  <-> x ∈ findall url_regex line \/ x ∈ findall email_regex line
      \/ (x ∈ findall ipv6_regex line /\ x <> "::")
      \/ x ∈ findall ipv4_regex line.
Proof.
  unfold regex_for_secrets. cbn [fst app].
  rewrite !elem_of_app, elem_of_List_filter, negb_true_iff, String.eqb_neq. tauto.
Qed.

Lemma regex_for_secrets_snd (line : string) :
  snd (regex_for_secrets line) = findall date_regex line.
Proof. reflexivity. Qed.

(** X10.  Every candidate and every exemption is a non-empty string that occurs in
    the line, and the bare [::] is never a candidate. *)
Theorem regex_for_secrets_substrings (line x : string) :
  x ∈ fst (regex_for_secrets line) \/ x ∈ snd (regex_for_secrets line) ->
  (contains x line = true /\ x <> EmptyString)
  /\ "::" ∉ fst (regex_for_secrets line).
Proof.
  intros Hx. split.
  - revert Hx. rewrite regex_for_secrets_fst, regex_for_secrets_snd.
    intros [[H|[H|[[H _]|H]]]|H]; apply findall_sound in H as [Hl Hsub];
      (split; [now apply contains_spec|]); intros ->; apply lang_first in Hl;
      vm_compute in Hl; discriminate.
  - rewrite regex_for_secrets_fst.
    intros [H|[H|[[_ H]|H]]]; [| |now apply H|];
      apply findall_sound in H as [Hl _]; apply lang_first in Hl;
      vm_compute in Hl; discriminate.
Qed.

(** ** Date exemptions and the entropy pass *)

Lemma date_has_separator (w : string) :
  lang date_regex w ->
  exists pre c post, w = (pre ++ String c post)%string /\ date_separator c = true.
Proof.
  unfold date_regex. cbn [seqs lang].
  intros (w1 & r1 & -> & _ & w2 & r2 & -> & _ & w3 & r3 & -> & _ & w4 & r4 & -> & _
          & w5 & r5 & -> & _ & w6 & r6 & -> & (c & -> & Hc) & _).
  exists (w1 ++ w2 ++ w3 ++ w4 ++ w5)%string, c, r6. split; [|exact Hc].
  now rewrite !string_app_assoc.
Qed.

(** A date match occurs in no lowercased, stripped token. *)
Lemma date_match_covers_no_token (line line' m tok : string) :
  m ∈ snd (regex_for_secrets line) -> tok ∈ split_ws line' ->
  contains m (lower (strip strip_chars tok)) = false.
Proof.
  rewrite regex_for_secrets_snd. intros [Hl _]%findall_sound Htok.
  apply date_has_separator in Hl as [pre [c [post [-> Hc]]]].
  destruct (contains _ _) eqn:Hcont; [|reflexivity]. exfalso.
  apply (all_chars_contains (fun c => negb (date_separator c))) in Hcont;
    [|now apply (token_no_separator line')].
  rewrite all_chars_app in Hcont. cbn [all_chars] in Hcont. rewrite Hc in Hcont.
  cbn in Hcont. rewrite andb_false_r in Hcont. discriminate.
Qed.

Lemma exemptions_are_dates (lines : list string) (m : string) :
  m ∈ exemptions lines -> exists line, m ∈ snd (regex_for_secrets line).
Proof.
  induction lines as [|line lines IH]; cbn [exemptions]; [set_solver|].
  intros [H|H]%elem_of_union; [|now apply IH].
  destruct (line_disabled line); [set_solver|].
  apply elem_of_list_to_set in H. now exists line.
Qed.

Lemma any_in_token_dates (white_list dates : gset string) (line tok : string) :
  (forall m, m ∈ dates -> exists l, m ∈ snd (regex_for_secrets l)) ->
  tok ∈ split_ws line ->
  any_in (white_list ∪ dates) (lower (strip strip_chars tok))
  = any_in white_list (lower (strip strip_chars tok)).
Proof.
  intros Hd Htok. destruct (any_in white_list _) eqn:Hw.
  - apply (any_in_mono white_list); [set_solver|exact Hw].
  - rewrite any_in_false in *. intros w [Hin|Hin]%elem_of_union; [now apply Hw|].
    destruct (Hd w Hin) as [l Hl]. now apply (date_match_covers_no_token l line).
Qed.

Lemma entropy_pass_dates (white_list dates : gset string) (line : string)
    (acc : list string) :
  (forall m, m ∈ dates -> exists l, m ∈ snd (regex_for_secrets l)) ->
  entropy_pass (white_list ∪ dates) line acc = entropy_pass white_list line acc.
Proof.
  intros Hd. unfold entropy_pass.
  assert (forall tok, tok ∈ split_ws line -> tok ∈ split_ws line) as Hsub by auto.
  revert acc Hsub. generalize (split_ws line) at 1 3 4 as toks.
  induction toks as [|tok toks IH]; intros acc Hsub; cbn [fold_left]; [reflexivity|].
  rewrite (any_in_token_dates white_list dates line tok Hd)
    by (apply Hsub, list_elem_of_here).
  apply IH. intros t Ht. now apply Hsub, list_elem_of_further.
Qed.

Lemma scan_line_high (st : line_state) (line : string) :
  high_entropy_strings (scan_line st line)
  = if line_disabled line then high_entropy_strings st
    else entropy_pass (secrets_white_list st ∪ exemptions [line]) line
           (high_entropy_strings st).
Proof.
  unfold scan_line, line_disabled. cbn [exemptions]. unfold line_disabled.
  destruct (regex_for_secrets line) as [ps fps].
  destruct (findall disable_regex line); cbn [high_entropy_strings snd]; [|reflexivity].
  f_equal. set_solver.
Qed.

(** The date matches added to the whitelist during a scan never change what
    the entropy pass yields. *)
Lemma scan_lines_high (lines : list string) (st : line_state) :
  high_entropy_strings (fold_left scan_line lines st)
  = entropy_passes (secrets_white_list st) lines (high_entropy_strings st).
Proof.
  unfold entropy_passes.
  assert (forall dates : gset string,
            (forall m, m ∈ dates -> exists l, m ∈ snd (regex_for_secrets l)) ->
            forall st' : line_state,
              secrets_white_list st' = secrets_white_list st ∪ dates ->
              high_entropy_strings (fold_left scan_line lines st')
              = fold_left
                  (fun acc line =>
                     if line_disabled line then acc
                     else entropy_pass (secrets_white_list st) line acc)
                  lines (high_entropy_strings st')) as Hgen.
  { induction lines as [|line lines IH]; intros dates Hd st' Hwl; cbn [fold_left];
      [reflexivity|].
    rewrite (IH (dates ∪ exemptions [line])).
    - rewrite scan_line_high. destruct (line_disabled line); [reflexivity|].
      rewrite Hwl, <- (assoc_L (∪)), entropy_pass_dates; [reflexivity|].
      intros m [Hm|Hm]%elem_of_union; [now apply Hd|now apply (exemptions_are_dates [line])].
    - intros m [Hm|Hm]%elem_of_union; [now apply Hd|now apply (exemptions_are_dates [line])].
    - rewrite scan_line_white_list, Hwl. set_solver. }
  apply (Hgen ∅); [set_solver|set_solver].
Qed.

(** ** Bounds on the entropy *)

Lemma count_char_le (c : ascii) (s : string) : count_char c s <= String.length s.
Proof. induction s as [|d s IH]; cbn [count_char String.length]; [lia|]. destruct (Ascii.eqb d c); lia. Qed.

Lemma list_sum_cons (k : nat) (ks : list nat) : list_sum (k :: ks) = k + list_sum ks.
Proof. reflexivity. Qed.

Lemma hits_absent (d : ascii) (l : list ascii) :
  d ∉ l -> list_sum (map (fun c => if Ascii.eqb d c then 1 else 0) l) = 0.
Proof.
  induction l as [|e l IH]; intros Hd; [reflexivity|]. cbn [map]. rewrite list_sum_cons.
  destruct (Ascii.eqb_spec d e) as [->|_].
  - exfalso. apply Hd. apply list_elem_of_here.
  - rewrite IH; [reflexivity|]. intros H. apply Hd. now apply list_elem_of_further.
Qed.

Lemma hits_NoDup (d : ascii) (l : list ascii) :
  NoDup l -> list_sum (map (fun c => if Ascii.eqb d c then 1 else 0) l) <= 1.
Proof.
  induction 1 as [|c l Hc Hl IH]; cbn [map]; [simpl; lia|]. rewrite list_sum_cons.
  destruct (Ascii.eqb_spec d c) as [->|Hne]; [|lia].
  rewrite (hits_absent c l Hc). lia.
Qed.

Lemma counts_le_length (l : list ascii) (s : string) :
  NoDup l -> list_sum (map (fun c => count_char c s) l) <= String.length s.
Proof.
  intros Hl. induction s as [|d s IH]; cbn [count_char String.length].
  - clear Hl. induction l as [|c l IHl]; [reflexivity|]. cbn [map].
    rewrite list_sum_cons. lia.
  - assert (list_sum (map (fun c => (if Ascii.eqb d c then 1 else 0) + count_char c s) l)
            = list_sum (map (fun c => if Ascii.eqb d c then 1 else 0) l)
              + list_sum (map (fun c => count_char c s) l)) as ->.
    { clear. induction l as [|c l IH]; [reflexivity|]. cbn [map].
      rewrite !list_sum_cons. lia. }
    pose proof (hits_NoDup d l Hl). lia.
Qed.

Section EntropyBounds.
Local Open Scope R_scope.

Lemma ln_le_mono (x y : R) : 0 < x -> x <= y -> ln x <= ln y.
Proof. intros Hx Hxy. apply (proj1 (ln_le_iff x y Hx ltac:(lra)) Hxy). Qed.

Lemma ln_le_inv (x y : R) : 0 < x -> 0 < y -> ln x <= ln y -> x <= y.
Proof. intros Hx Hy. apply (proj2 (ln_le_iff x y Hx Hy)). Qed.

Lemma count_sum_list_sum (ks : list nat) : count_sum ks = INR (list_sum ks).
Proof.
  unfold count_sum. induction ks as [|k ks IH]; [reflexivity|]. cbn [map fold_right].
  now rewrite list_sum_cons, plus_INR, IH.
Qed.

Lemma ln_INR_nonneg (k : nat) : 0 <= ln (INR k).
Proof.
  destruct k as [|k].
  - simpl. unfold ln. destruct (Rlt_dec 0 0) as [H|_]; [exfalso; exact (Rlt_irrefl _ H)|apply Rle_refl].
  - rewrite <- ln_1. apply ln_le_mono; [lra|].
    rewrite <- INR_1. apply le_INR. lia.
Qed.

Lemma klnk_sum_bounds (ks : list nat) (n : nat) :
  Forall (fun k => (k <= n)%nat) ks ->
  0 <= klnk_sum ks <= count_sum ks * ln (INR n).
Proof.
  unfold klnk_sum, count_sum. induction 1 as [|k ks Hk Hall IH]; cbn [map fold_right].
  - lra.
  - destruct k as [|k].
    { simpl (INR 0). rewrite !Rmult_0_l. lra. }
    assert (0 < INR (S k)) by (apply lt_0_INR; lia).
    pose proof (ln_INR_nonneg (S k)).
    assert (ln (INR (S k)) <= ln (INR n)) by (apply ln_le_mono; [assumption|now apply le_INR]).
    assert (0 <= INR (S k) * ln (INR (S k))) by (apply Rmult_le_pos; lra).
    assert (INR (S k) * ln (INR (S k)) <= INR (S k) * ln (INR n))
      by (apply Rmult_le_compat_l; lra).
    lra.
Qed.

Lemma entropy_range (data : string) :
  0 <= calculate_shannon_entropy data
  /\ (data <> EmptyString ->
      calculate_shannon_entropy data <= log2 (INR (String.length data))).
Proof.
  destruct data as [|d data].
  - split; [unfold calculate_shannon_entropy; lra|congruence].
  - set (s := String d data).
    assert (0 < String.length s)%nat as Hn by (simpl; lia).
    pose proof (entropy_scaled s Hn) as HE.
    set (ks := map (fun c => count_char c s) printable) in *.
    assert (Forall (fun k => (k <= String.length s)%nat) ks) as Hks.
    { unfold ks. generalize printable as l. induction l as [|c l IHl]; cbn [map];
        constructor; [apply count_char_le|exact IHl]. }
    pose proof (klnk_sum_bounds ks (String.length s) Hks) as [Hk0 Hk1].
    assert (count_sum ks <= INR (String.length s)) as HK.
    { rewrite count_sum_list_sum. apply le_INR. apply counts_le_length, printable_NoDup. }
    assert (0 <= count_sum ks) by (rewrite count_sum_list_sum; apply pos_INR).
    pose proof (ln_INR_nonneg (String.length s)) as Hln.
    assert (0 < INR (String.length s)) as HN by now apply lt_0_INR.
    pose proof ln2_pos as H2.
    assert (0 < INR (String.length s) * ln 2) as Hpos by now apply Rmult_lt_0_compat.
    split.
    + apply (Rmult_le_reg_r (INR (String.length s) * ln 2)); [exact Hpos|].
      rewrite HE. lra.
    + intros _. apply (Rmult_le_reg_r (INR (String.length s) * ln 2)); [exact Hpos|].
      rewrite HE. unfold log2.
      replace (ln (INR (String.length s)) / ln 2 * (INR (String.length s) * ln 2))
        with (INR (String.length s) * ln (INR (String.length s))) by (field; lra).
      assert (count_sum ks * ln (INR (String.length s))
              <= INR (String.length s) * ln (INR (String.length s)))
        by now apply Rmult_le_compat_r.
      lra.
Qed.

Lemma threshold_needs_length (data : string) :
  calculate_shannon_entropy data >= ENTROPY_THRESHOLD ->
  (14 <= String.length data)%nat.
Proof.
  unfold ENTROPY_THRESHOLD. intros Hge.
  destruct data as [|d data]; [unfold calculate_shannon_entropy in Hge; lra|].
  set (s := String d data) in *.
  destruct (entropy_range s) as [_ Hub]. specialize (Hub ltac:(discriminate)).
  destruct (le_lt_dec 14 (String.length s)) as [|Hlt]; [assumption|exfalso].
  assert (0 < String.length s)%nat as Hn by (simpl; lia).
  assert (0 < INR (String.length s)) as HN by now apply lt_0_INR.
  pose proof ln2_pos as H2. unfold log2 in Hub.
  assert (19 * ln 2 <= 5 * ln (INR (String.length s))) as H5.
  { assert (38 / 10 <= ln (INR (String.length s)) / ln 2) as H by lra.
    apply (Rmult_le_compat_r (ln 2)) in H; [|lra].
    replace (ln (INR (String.length s)) / ln 2 * ln 2) with (ln (INR (String.length s)))
      in H by (field; lra).
    lra. }
  assert (ln (2 ^ 19) <= ln (INR (String.length s) ^ 5)) as Hln.
  { rewrite !ln_pow by lra. replace (INR 19) with 19 by (simpl; lra).
    replace (INR 5) with 5 by (simpl; lra). lra. }
  apply ln_le_inv in Hln; [|apply pow_lt; lra|now apply pow_lt].
  assert (INR (String.length s) <= 13) as H13.
  { apply Rle_trans with (INR 13); [apply le_INR; lia|simpl; lra]. }
  assert (INR (String.length s) ^ 5 <= 13 ^ 5) as Hp by (apply pow_incr; lra).
  lra.
Qed.

End EntropyBounds.

(** ** The entropy depends on the character counts only *)

Section EntropyCounts.
Local Open Scope R_scope.

Lemma entropy_ext (s1 s2 : string) :
  String.length s1 = String.length s2 ->
  (forall c, count_char c s1 = count_char c s2) ->
  calculate_shannon_entropy s1 = calculate_shannon_entropy s2.
Proof.
  intros Hlen Hcount.
  destruct s1 as [|c1 s1], s2 as [|c2 s2]; try discriminate Hlen; [reflexivity|].
  unfold calculate_shannon_entropy. rewrite !entropy_fold_acc by discriminate.
  f_equal. generalize printable as l. induction l as [|c l IH]; [reflexivity|].
  cbn [List.filter]. rewrite <- (Hcount c).
  destruct (0 <? count_char c (String c1 s1))%nat; cbn [map fold_right]; rewrite IH;
    [|reflexivity].
  unfold px. now rewrite <- (Hcount c), Hlen.
Qed.

Lemma count_char_list (c : ascii) (l : list ascii) :
  count_char c (string_of_list_ascii l)
  = List.length (List.filter (fun d => Ascii.eqb d c) l).
Proof.
  induction l as [|d l IH]; [reflexivity|].
  cbn [string_of_list_ascii count_char List.filter]. rewrite IH.
  destruct (Ascii.eqb d c); reflexivity.
Qed.

Lemma length_string_of_list (l : list ascii) :
  String.length (string_of_list_ascii l) = List.length l.
Proof. induction l as [|d l IH]; [reflexivity|]. cbn. now rewrite IH. Qed.

(** X4.  Reordering the characters of a string leaves its entropy unchanged. *)
Theorem entropy_permutation (l1 l2 : list ascii) :
  Permutation l1 l2 ->
  calculate_shannon_entropy (string_of_list_ascii l1)
  = calculate_shannon_entropy (string_of_list_ascii l2).
Proof.
  intros Hp. apply entropy_ext.
  - rewrite !length_string_of_list. now apply Permutation_length.
  - intros c. rewrite !count_char_list. apply Permutation_length.
    clear -Hp. induction Hp as [|x l l' Hp IH|x y l|l l' l'' Hp1 IH1 Hp2 IH2];
      cbn [List.filter].
    + constructor.
    + destruct (Ascii.eqb x c); [now constructor|exact IH].
    + destruct (Ascii.eqb x c), (Ascii.eqb y c); try reflexivity. apply perm_swap.
    + now transitivity (List.filter (fun d => Ascii.eqb d c) l').
Qed.

Lemma count_char_uniform (c d : ascii) (s : string) :
  all_chars (Ascii.eqb c) s = true ->
  count_char d s = if Ascii.eqb c d then String.length s else 0%nat.
Proof.
  induction s as [|e s IH]; cbn [all_chars count_char String.length].
  - now destruct (Ascii.eqb c d).
  - rewrite andb_true_iff. intros [He Hs]. apply Ascii.eqb_eq in He. subst e.
    rewrite (IH Hs). destruct (Ascii.eqb c d); lia.
Qed.

Lemma count_char_absent (p : ascii -> bool) (c : ascii) (s : string) :
  all_chars p s = true -> p c = false -> count_char c s = 0%nat.
Proof.
  intros Hs Hc. induction s as [|e s IH]; [reflexivity|]. cbn [all_chars count_char] in *.
  apply andb_true_iff in Hs as [He Hs]. rewrite (IH Hs).
  destruct (Ascii.eqb_spec e c) as [->|_]; [congruence|reflexivity].
Qed.

(** X5.  A string made of one repeated character has entropy 0, and so has a
    string without printable characters. *)
Theorem entropy_zero (data : string) :
  (exists c, all_chars (Ascii.eqb c) data = true)
  \/ all_chars (fun c => negb (bool_decide (c ∈ printable))) data = true ->
  calculate_shannon_entropy data = 0.
Proof.
  intros Hcase. destruct data as [|d data]; [reflexivity|].
  set (s := String d data) in *.
  unfold calculate_shannon_entropy. rewrite entropy_fold_acc by discriminate.
  rewrite Rplus_0_l.
  assert (forall c, c ∈ printable -> (0 < count_char c s)%nat ->
            - px s c * log2 (px s c) = 0) as Hterm.
  { intros c Hc Hpos. destruct Hcase as [[e He]|Hnp].
    - rewrite (count_char_uniform e c s He) in Hpos. unfold px.
      rewrite (count_char_uniform e c s He).
      destruct (Ascii.eqb e c); [|lia].
      assert (0 < INR (String.length s)) by (apply lt_0_INR; simpl; lia).
      replace (INR (String.length s) / INR (String.length s)) with 1 by (field; lra).
      unfold log2. rewrite ln_1. lra.
    - exfalso. rewrite (count_char_absent _ c s Hnp) in Hpos; [lia|].
      apply negb_false_iff. now apply bool_decide_eq_true. }
  revert Hterm. generalize printable as l. induction l as [|c l IH]; intros Hterm;
    [reflexivity|].
  cbn [List.filter].
  assert (fold_right Rplus 0
            (map (fun c0 => - px s c0 * log2 (px s c0))
               (List.filter (fun c0 => (0 <? count_char c0 s)%nat) l)) = 0) as Hrest.
  { apply IH. intros c0 Hc0. apply Hterm. now apply list_elem_of_further. }
  destruct (0 <? count_char c s)%nat eqn:Hk; cbn [map fold_right]; rewrite Hrest;
    [|reflexivity].
  rewrite (Hterm c); [apply Rplus_0_l|apply list_elem_of_here|now apply Nat.ltb_lt].
Qed.

End EntropyCounts.

(** ** The shape of the entropy findings *)

Lemma lstrip_first (chars s : string) :
  match first_char_of (lstrip chars s) with
  | Some c => one_of chars c = false
  | None => True
  end.
Proof.
  induction s as [|c s IH]; cbn [lstrip]; [exact I|].
  destruct (one_of chars c) eqn:Hc; [exact IH|exact Hc].
Qed.

Lemma rstrip_last (chars s : string) :
  match last_char (rstrip chars s) with
  | Some c => one_of chars c = false
  | None => True
  end.
Proof.
  induction s as [|c s IH]; cbn [rstrip]; [exact I|].
  destruct (rstrip chars s) as [|d r] eqn:Hr.
  - destruct (one_of chars c) eqn:Hc; [exact I|exact Hc].
  - exact IH.
Qed.

Lemma rstrip_first (chars s : string) :
  match first_char_of (rstrip chars s) with
  | Some c => first_char_of s = Some c
  | None => True
  end.
Proof.
  destruct s as [|c s]; cbn [rstrip]; [exact I|].
  destruct (rstrip chars s); [destruct (one_of chars c)|]; cbn; auto.
Qed.

(** A stripped token neither starts nor ends with a stripped character. *)
Lemma strip_ends (chars s : string) :
  match first_char_of (strip chars s) with
  | Some c => one_of chars c = false
  | None => True
  end
  /\ match last_char (strip chars s) with
     | Some c => one_of chars c = false
     | None => True
     end.
Proof.
  unfold strip. split; [|apply rstrip_last].
  pose proof (rstrip_first chars (lstrip chars s)) as H1.
  pose proof (lstrip_first chars s) as H2.
  destruct (first_char_of (rstrip chars (lstrip chars s))); [|exact I].
  now rewrite H1 in H2.
Qed.

(** ** The entropy findings of a file *)

Lemma scan_contents_high (set_iter : list string -> list string)
    (white_list : gset string) (context_source contents : string) :
  high_entropy_strings (scan_contents set_iter white_list context_source contents)
  = entropy_passes (white_list ∪ create_temp_white_list context_source)
      (set_iter (split_on newline contents)) [].
Proof. unfold scan_contents. now rewrite scan_lines_high. Qed.

Lemma entropy_passes_elem (white_list : gset string) (lines : list string)
    (acc : list string) (x : string) :
  x ∈ entropy_passes white_list lines acc
  <-> x ∈ acc
      \/ exists line tok, line ∈ lines /\ line_disabled line = false
           /\ tok ∈ split_ws line /\ x = strip strip_chars tok
           /\ any_in white_list (lower x) = false
           /\ entropy_reaches_threshold x = true.
Proof.
  unfold entropy_passes. revert acc. induction lines as [|line lines IH]; intros acc;
    cbn [fold_left].
  - split; [now left|]. intros [H|(line & tok & H & _)]; [exact H|].
    now apply elem_of_nil in H.
  - rewrite IH. clear IH. split.
    + intros [H|(l & tok & Hl & Hrest)].
      * destruct (line_disabled line) eqn:Hd; [now left|].
        apply entropy_pass_elem in H as [H|(tok & Htok & Hrest)]; [now left|].
        right. exists line, tok. split; [apply list_elem_of_here|]. tauto.
      * right. exists l, tok. split; [now apply list_elem_of_further|exact Hrest].
    + intros [H|(l & tok & Hl & Hd & Hrest)].
      * left. destruct (line_disabled line); [exact H|].
        apply entropy_pass_elem. now left.
      * apply elem_of_cons in Hl as [->|Hl].
        -- left. rewrite Hd. apply entropy_pass_elem. right. now exists tok.
        -- right. exists l, tok. tauto.
Qed.

(** X7.  Every entropy finding has at least 14 characters, holds no
    whitespace, neither starts nor ends with a stripped character, and its
    lowercased form contains no entry of the whitelist the scan of the file
    starts from. *)
Theorem entropy_findings_shape (set_iter : list string -> list string)
    (white_list : gset string) (context_source contents x : string) :
  x ∈ high_entropy_strings (scan_contents set_iter white_list context_source contents) ->
  (14 <= String.length x)%nat
  /\ all_chars (fun c => negb (is_space c)) x = true
  /\ match first_char_of x with Some c => one_of strip_chars c = false | None => True end
  /\ match last_char x with Some c => one_of strip_chars c = false | None => True end
  /\ any_in (white_list ∪ create_temp_white_list context_source) (lower x) = false.
Proof.
  rewrite scan_contents_high, entropy_passes_elem.
  intros [H|(line & tok & _ & _ & Htok & -> & Hw & He)]; [now apply elem_of_nil in H|].
  split.
  { apply threshold_needs_length. now apply entropy_reaches_threshold_spec. }
  split.
  { apply all_chars_strip. now apply (split_ws_tokens line). }
  pose proof (strip_ends strip_chars tok) as [H1 H2]. auto.
Qed.

(** ** The working whitelist *)

Lemma scan_contents_white_list (set_iter : list string -> list string)
    (white_list : gset string) (context_source contents : string) :
  secrets_white_list (scan_contents set_iter white_list context_source contents)
  = white_list ∪ create_temp_white_list context_source
    ∪ exemptions (set_iter (split_on newline contents)).
Proof. unfold scan_contents. now rewrite scan_lines_white_list. Qed.

Lemma reported_at_mono (wl1 wl2 : gset string) (line x : string) :
  wl1 ⊆ wl2 -> reported_at wl2 line x -> reported_at wl1 line x.
Proof.
  intros Hsub [Hd H]. split; [exact Hd|].
  destruct H as [[Hin Hw]|(tok & Htok & Hx & Hw & He)].
  - left. split; [exact Hin|]. destruct (any_in wl1 x) eqn:E; [|reflexivity].
    apply (any_in_mono wl1 wl2) in E; [congruence|exact Hsub].
  - right. exists tok. repeat (split; [assumption|]). split; [|exact He].
    destruct (any_in (wl1 ∪ _) (lower x)) eqn:E; [|reflexivity].
    apply (any_in_mono _ (wl2 ∪ list_to_set (snd (regex_for_secrets line)))) in E;
      [congruence|set_solver].
Qed.

(** X8.  A larger incoming whitelist never adds a finding. *)
Theorem findings_antitone (set_iter : list string -> list string)
    (wl1 wl2 : gset string) (context_source contents : string) :
  wl1 ⊆ wl2 ->
  file_secrets_of (scan_contents set_iter wl2 context_source contents)
  ⊆ file_secrets_of (scan_contents set_iter wl1 context_source contents).
Proof.
  intros Hsub x. rewrite !scan_contents_found.
  intros (pre & line & post & Heq & H). exists pre, line, post. split; [exact Heq|].
  revert H. apply reported_at_mono. set_solver.
Qed.

Lemma contains_empty (s : string) : contains EmptyString s = true.
Proof. destruct s; reflexivity. Qed.

Lemma reported_at_empty_entry (white_list : gset string) (line x : string) :
  EmptyString ∈ white_list -> ~ reported_at white_list line x.
Proof.
  intros Hin [_ [[_ Hw]|(tok & _ & _ & Hw & _)]]; rewrite any_in_false in Hw.
  - specialize (Hw "" Hin). now rewrite contains_empty in Hw.
  - specialize (Hw "" ltac:(set_solver)). now rewrite contains_empty in Hw.
Qed.

Lemma scan_lines_nothing (lines : list string) (st : line_state) :
  EmptyString ∈ secrets_white_list st ->
  high_entropy_strings (fold_left scan_line lines st) = high_entropy_strings st
  /\ regex_secrets (fold_left scan_line lines st) = regex_secrets st.
Proof.
  revert st. induction lines as [|line lines IH]; intros st Hin; cbn [fold_left];
    [now split|].
  assert (EmptyString ∈ secrets_white_list (scan_line st line)) as Hin'
    by (rewrite scan_line_white_list; set_solver).
  destruct (IH _ Hin') as [-> ->]. clear IH Hin'.
  unfold scan_line. destruct (regex_for_secrets line) as [ps fps].
  destruct (findall disable_regex line); cbn [high_entropy_strings regex_secrets];
    [|now split].
  split.
  - unfold entropy_pass. generalize (high_entropy_strings st) as acc.
    induction (split_ws line) as [|tok toks IHt]; intros acc; cbn [fold_left];
      [reflexivity|].
    assert (any_in (secrets_white_list st ∪ list_to_set fps)
              (lower (strip strip_chars tok)) = true) as ->; [|apply IHt].
    apply any_in_true. exists "". split; [set_solver|apply contains_empty].
  - assert (List.filter (fun p => negb (any_in (secrets_white_list st) p)) ps = []) as ->;
      [|apply app_nil_r].
    induction ps as [|p ps IHp]; [reflexivity|]. cbn [List.filter].
    assert (any_in (secrets_white_list st) p = true) as ->; [|exact IHp].
    apply any_in_true. exists "". split; [exact Hin|apply contains_empty].
Qed.

(** ** Lines with the disable marker *)

Lemma rmatch_lit (m : string) : forall (s : string) (k : string -> option string),
  (exists post, s = (m ++ post)%string /\ rmatch (lit m) s k = k post)
  \/ (String.prefix m s = false /\ rmatch (lit m) s k = None).
Proof.
  induction m as [|c m IH]; intros s k; cbn [lit rmatch].
  - left. now exists s.
  - destruct s as [|d s]; [right; now split|].
    cbn [String.prefix]. destruct (Ascii.eqb_spec c d) as [->|Hne].
    + destruct (ascii_dec d d) as [_|Hdd]; [|congruence].
      destruct (IH s k) as [(post & -> & Hk)|[Hp Hk]].
      * left. exists post. split; [reflexivity|exact Hk].
      * right. split; [exact Hp|exact Hk].
    + right. destruct (ascii_dec c d) as [->|_]; [congruence|]. now split.
Qed.

Lemma match_here_lit (m s : string) :
  match_here (lit m) s = if String.prefix m s then Some m else None.
Proof.
  unfold match_here. destruct (rmatch_lit m s Some) as [(post & -> & ->)|[-> ->]];
    [|reflexivity].
  rewrite string_app_length, Nat.add_sub, substring_app_prefix.
  assert (String.prefix m (m ++ post) = true) as -> by (apply prefix_spec; now exists post).
  reflexivity.
Qed.

Lemma findall_lit_nil (m s : string) :
  findall_aux (lit m) s 0 = [] <-> contains m s = false.
Proof.
  induction s as [|c s IH]; cbn [findall_aux contains]; rewrite match_here_lit.
  - destruct (String.prefix m ""); cbn; split; congruence.
  - destruct (String.prefix m (String c s)); cbn; [split; congruence|exact IH].
Qed.

Lemma line_disabled_contains (line : string) :
  line_disabled line = contains "disable-secrets-detection" line.
Proof.
  unfold line_disabled, findall, disable_regex.
  pose proof (findall_lit_nil "disable-secrets-detection" line) as H.
  destruct (findall_aux _ line 0); destruct (contains _ line); try reflexivity.
  - discriminate (proj1 H eq_refl).
  - discriminate (proj2 H eq_refl).
Qed.

(** X9.  A line is skipped exactly when the marker occurs in it, and a skipped
    line changes neither the whitelist nor the two result lists. *)
Theorem marker_decides_skip (st : line_state) (line : string) :
  (contains "disable-secrets-detection" line = true
   /\ line_disabled line = true
   /\ secrets_white_list (scan_line st line) = secrets_white_list st
   /\ high_entropy_strings (scan_line st line) = high_entropy_strings st
   /\ regex_secrets (scan_line st line) = regex_secrets st)
  \/ (contains "disable-secrets-detection" line = false
      /\ line_disabled line = false).
Proof.
  pose proof (line_disabled_contains line) as E.
  destruct (contains "disable-secrets-detection" line).
  - left. split; [reflexivity|]. split; [exact E|]. now apply scan_line_disabled.
  - right. now split.
Qed.

(** ** The run: errors *)

Section RunErrors.
Variable set_iter : list string -> list string.
Variable env : environment.

Lemma search_potential_secrets_Ok (paths : list string)
    (report : gmap string (gset string)) :
  search_potential_secrets set_iter env paths = Ok report
  <-> exists entries st,
        white_list_json env = Some entries
        /\ scan_files set_iter env (initial_state entries) paths = Ok st
        /\ report = secrets_found st.
Proof.
  unfold search_potential_secrets. destruct (white_list_json env) as [entries|].
  - fold (initial_state entries). rewrite bind_Ok. split.
    + intros [st [Hst [= <-]]]. now exists entries, st.
    + intros (entries' & st & [= <-] & Hst & ->). now exists st.
  - split; [discriminate|]. intros (entries & st & [=] & _).
Qed.

Lemma file_scan_Ok (st : run_state) (file_path : string) (y : option string)
    (ls : line_state) :
  file_scan set_iter env st file_path = Ok (y, ls) ->
  exists contents,
    read_text env ("./" ++ file_path)%string = Some contents
    /\ ls = scan_contents set_iter (run_white_list st) (truthy_or y contents) contents
    /\ (snd (splitext file_path) = ".py" \/ yml_file_contents st = Some y).
Proof.
  unfold file_scan. destruct (splitext file_path) as [root ext]. cbn [snd].
  destruct (String.eqb_spec ext ".py") as [->|Hext].
  - destruct (retrieve_related_yml env root) as [y0|e]; cbn; [|discriminate].
    destruct (read_text env _) as [contents|]; [|discriminate].
    intros [= <- <-]. exists contents. auto.
  - cbn. destruct (read_text env _) as [contents|]; [|discriminate].
    destruct (yml_file_contents st) as [y0|] eqn:Hy; [|discriminate].
    intros [= <- <-]. exists contents. auto.
Qed.

(** X12.  A run whose first path has another extension than [.py] ends with
    [UnboundLocalError] as soon as that file has been read. *)
Theorem first_path_not_script (entries : list string) (p contents : string)
    (rest : list string) :
  white_list_json env = Some entries ->
  snd (splitext p) <> ".py" ->
  read_text env ("./" ++ p)%string = Some contents ->
  search_potential_secrets set_iter env (p :: rest) = Raise UnboundLocalError.
Proof.
  intros Hwl Hext Hread. unfold search_potential_secrets. rewrite Hwl.
  cbn [scan_files]. unfold scan_file, file_scan.
  destruct (splitext p) as [root ext]. cbn [snd] in Hext.
  destruct (String.eqb_spec ext ".py") as [->|_]; [congruence|].
  cbn. rewrite Hread. reflexivity.
Qed.

Lemma scan_files_read (paths : list string) (st st' : run_state) :
  scan_files set_iter env st paths = Ok st' ->
  forall p, p ∈ paths -> is_Some (read_text env ("./" ++ p)%string).
Proof.
  revert st. induction paths as [|q paths IH]; intros st; cbn [scan_files].
  - intros _ p Hp. now apply elem_of_nil in Hp.
  - intros [st1 [H1 H2]]%bind_Ok p [->|Hp]%elem_of_cons; [|now apply (IH st1)].
    apply scan_file_Ok in H1 as (y & ls & Hf & _).
    apply file_scan_Ok in Hf as (contents & Hr & _). now exists contents.
Qed.

(** X13.  A run that returns a report has loaded the whitelist and read every
    file of its list, and its first file, if any, has the extension [.py]:
    no file is skipped silently. *)
Theorem run_reads_every_file (paths : list string)
    (report : gmap string (gset string)) :
  search_potential_secrets set_iter env paths = Ok report ->
  is_Some (white_list_json env)
  /\ (forall p, p ∈ paths -> is_Some (read_text env ("./" ++ p)%string))
  /\ match paths with
     | [] => True
     | p :: _ => snd (splitext p) = ".py"
     end.
Proof.
  intros (entries & st & Hwl & Hrun & _)%search_potential_secrets_Ok.
  split; [now exists entries|]. split; [exact (scan_files_read paths _ st Hrun)|].
  destruct paths as [|p rest]; [exact I|]. cbn [scan_files] in Hrun.
  apply bind_Ok in Hrun as [st1 [H1 _]].
  apply scan_file_Ok in H1 as (y & ls & Hf & _).
  apply file_scan_Ok in Hf as (contents & _ & _ & [H|H]); [exact H|discriminate H].
Qed.

(** ** The run: whitelist and report *)

Lemma scan_file_white_list (st st' : run_state) (file_path : string) :
  scan_file set_iter env st file_path = Ok st' ->
  exists y contents,
    yml_file_contents st' = Some y
    /\ read_text env ("./" ++ file_path)%string = Some contents
    /\ run_white_list st'
       = run_white_list st ∪ create_temp_white_list (truthy_or y contents)
         ∪ exemptions (set_iter (split_on newline contents)).
Proof.
  intros (y & ls & Hf & ->)%scan_file_Ok.
  apply file_scan_Ok in Hf as (contents & Hr & -> & _).
  exists y, contents. cbn. split; [reflexivity|]. split; [exact Hr|].
  apply scan_contents_white_list.
Qed.

Lemma scan_files_white_list_mono (paths : list string) (st st' : run_state) :
  scan_files set_iter env st paths = Ok st' ->
  run_white_list st ⊆ run_white_list st'.
Proof.
  revert st. induction paths as [|p paths IH]; intros st; cbn [scan_files].
  - now intros [= ->].
  - intros [st1 [H1 H2]]%bind_Ok. apply IH in H2.
    apply scan_file_white_list in H1 as (y & contents & _ & _ & Hwl).
    rewrite Hwl in H2. set_solver.
Qed.

Lemma scan_file_silenced (st st' : run_state) (file_path : string) :
  EmptyString ∈ run_white_list st ->
  scan_file set_iter env st file_path = Ok st' ->
  secrets_found st' = secrets_found st /\ EmptyString ∈ run_white_list st'.
Proof.
  intros Hin H. split.
  - apply scan_file_Ok in H as (y & ls & Hf & ->).
    apply file_scan_Ok in Hf as (contents & _ & -> & _). cbn.
    unfold has_findings, scan_contents.
    destruct (scan_lines_nothing (set_iter (split_on newline contents))
                {| file_contents := contents;
                   secrets_white_list :=
                     run_white_list st
                     ∪ create_temp_white_list (truthy_or y contents);
                   high_entropy_strings := [];
                   regex_secrets := [] |}) as [-> ->]; [cbn; set_solver|].
    reflexivity.
  - apply (scan_files_white_list_mono [file_path] st st'); [|exact Hin].
    cbn [scan_files]. rewrite H. reflexivity.
Qed.

(** X15.  Once the empty string is in the working whitelist, no later file of
    the run adds an entry to the report. *)
Theorem empty_entry_silences_run (paths : list string) (st st' : run_state) :
  EmptyString ∈ run_white_list st ->
  scan_files set_iter env st paths = Ok st' ->
  secrets_found st' = secrets_found st.
Proof.
  revert st. induction paths as [|p paths IH]; intros st Hin; cbn [scan_files].
  - now intros [= ->].
  - intros [st1 [H1 H2]]%bind_Ok.
    destruct (scan_file_silenced st st1 p Hin H1) as [<- Hin1]. now apply IH.
Qed.

Lemma split_on_pieces (sep : ascii) (s piece : string) :
  piece ∈ split_on sep s ->
  all_chars (fun c => negb (Ascii.eqb c sep)) piece = true.
Proof.
  revert piece. induction s as [|c s IH]; intros piece; cbn [split_on].
  - now intros ->%list_elem_of_singleton.
  - destruct (Ascii.eqb c sep) eqn:Hc.
    + intros [->|H]%elem_of_cons; [reflexivity|now apply IH].
    + destruct (split_on sep s) as [|w ws].
      * intros ->%list_elem_of_singleton. cbn [all_chars]. now rewrite Hc.
      * intros [->|H]%elem_of_cons.
        -- cbn [all_chars]. rewrite Hc. apply IH. apply list_elem_of_here.
        -- apply IH. now apply list_elem_of_further.
Qed.

Lemma split_on_nonempty (sep : ascii) (s : string) : split_on sep s <> [].
Proof.
  destruct s as [|c s]; cbn [split_on]; [discriminate|].
  destruct (Ascii.eqb c sep); [discriminate|]. now destruct (split_on sep s).
Qed.

Lemma last_component_no_slash (p : string) :
  all_chars (fun c => negb (Ascii.eqb c "/")) (last_component p) = true.
Proof.
  unfold last_component. apply (split_on_pieces "/" p).
  pose proof (split_on_nonempty "/" p) as Hne.
  induction (split_on "/" p) as [|w ws IH]; [congruence|].
  destruct ws as [|w' ws]; [apply list_elem_of_here|].
  apply list_elem_of_further. apply IH. discriminate.
Qed.

Lemma file_secrets_nonempty (ls : line_state) :
  has_findings ls = true -> file_secrets_of ls <> ∅.
Proof.
  unfold has_findings, file_secrets_of.
  destruct (high_entropy_strings ls) as [|h hs]; [destruct (regex_secrets ls) as [|r rs]|];
    [discriminate| |]; intros _; cbn [app list_to_set]; set_solver.
Qed.

Lemma scan_files_report (paths : list string) (st st' : run_state) (b : string)
    (found : gset string) :
  scan_files set_iter env st paths = Ok st' ->
  secrets_found st' !! b = Some found ->
  secrets_found st !! b = Some found
  \/ (found <> ∅ /\ exists p, p ∈ paths /\ b = last_component p).
Proof.
  revert st. induction paths as [|p paths IH]; intros st; cbn [scan_files].
  - intros [= ->]. now left.
  - intros [st1 [H1 H2]]%bind_Ok Hb.
    destruct (IH st1 H2 Hb) as [H|(Hne & q & Hq & ->)].
    + apply scan_file_Ok in H1 as (y & ls & _ & ->). cbn in H.
      destruct (has_findings ls) eqn:Hh; [|now left].
      destruct (decide (last_component p = b)) as [<-|Hne].
      * rewrite lookup_insert_eq in H. injection H as <-. right.
        split; [now apply file_secrets_nonempty|]. exists p. split; [apply list_elem_of_here|reflexivity].
      * rewrite lookup_insert_ne in H by exact Hne. now left.
    + right. split; [exact Hne|]. exists q. split; [now apply list_elem_of_further|reflexivity].
Qed.

(** X16.  Every key of the report is the last component of a scanned path and
    holds no slash, and every entry is a non-empty set. *)
Theorem report_keys_and_entries (paths : list string)
    (report : gmap string (gset string)) (b : string) (found : gset string) :
  search_potential_secrets set_iter env paths = Ok report ->
  report !! b = Some found ->
  found <> ∅
  /\ (exists p, p ∈ paths /\ b = last_component p)
  /\ all_chars (fun c => negb (Ascii.eqb c "/")) b = true.
Proof.
  intros (entries & st & _ & Hrun & ->)%search_potential_secrets_Ok Hb.
  destruct (scan_files_report paths _ st b found Hrun Hb) as [H|(Hne & p & Hp & ->)].
  - cbn in H. now rewrite lookup_empty in H.
  - split; [exact Hne|]. split; [now exists p|apply last_component_no_slash].
Qed.

End RunErrors.

(** ** Contextual entries *)

Lemma lower_char_facts (c : ascii) :
  lower_char (lower_char c) = lower_char c
  /\ (Ascii.eqb (lower_char c) "." = Ascii.eqb c ".").
Proof.
  pose proof (ascii_forallb
                (fun c => Ascii.eqb (lower_char (lower_char c)) (lower_char c)
                          && Bool.eqb (Ascii.eqb (lower_char c) ".") (Ascii.eqb c "."))) as H.
  specialize (H ltac:(vm_compute; reflexivity) c). cbv beta in H.
  apply andb_true_iff in H as [H1 H2]. split; [now apply Ascii.eqb_eq|].
  now apply Bool.eqb_prop.
Qed.

Lemma lower_idempotent (s : string) : lower (lower s) = lower s.
Proof.
  induction s as [|c s IH]; cbn [lower]; [reflexivity|].
  now rewrite (proj1 (lower_char_facts c)), IH.
Qed.

Lemma temp_white_list_elem (context_paths : list string) (acc : gset string) (e : string) :
  e ∈ fold_left
        (fun (temp_white_list : gset string) context_path =>
           temp_white_list ∪ list_to_set (map lower (split_on "." context_path)))
        context_paths acc
  <-> e ∈ acc
      \/ exists context_path piece,
           context_path ∈ context_paths /\ piece ∈ split_on "." context_path
           /\ e = lower piece.
Proof.
  revert acc. induction context_paths as [|cp cps IH]; intros acc; cbn [fold_left].
  - split; [now left|]. intros [H|(cp & piece & H & _)]; [exact H|].
    now apply elem_of_nil in H.
  - rewrite IH, elem_of_union, elem_of_list_to_set. clear IH. split.
    + intros [[H|H]|(cp' & piece & Hcp & Hrest)].
      * now left.
      * right. apply (list_elem_of_fmap lower) in H as (piece & -> & Hp).
        exists cp, piece. split; [apply list_elem_of_here|now split].
      * right. exists cp', piece. split; [now apply list_elem_of_further|exact Hrest].
    + intros [H|(cp' & piece & Hcp & Hp & ->)]; [left; now left|].
      apply elem_of_cons in Hcp as [->|Hcp].
      * left. right. apply (list_elem_of_fmap lower). now exists piece.
      * right. now exists cp', piece.
Qed.

(** X11.  Every contextual whitelist entry is lowercase and holds no dot, and
    it is the lowercased form of a dot-separated piece of a value that
    follows the context-path marker in the text. *)
Theorem temp_white_list_entries (text e : string) :
  e ∈ create_temp_white_list text ->
  lower e = e
  /\ all_chars (fun c => negb (Ascii.eqb c ".")) e = true
  /\ exists m piece,
       m ∈ findall context_path_regex text
       /\ piece ∈ split_on "." (context_path_group m) /\ e = lower piece.
Proof.
  unfold create_temp_white_list. rewrite temp_white_list_elem.
  intros [H|(cp & piece & Hcp & Hp & ->)]; [set_solver|].
  split; [apply lower_idempotent|]. split.
  - rewrite <- all_chars_lower. apply split_on_pieces in Hp. revert Hp.
    apply all_chars_weaken. intros c Hc.
    now rewrite (proj2 (lower_char_facts c)).
  - apply (list_elem_of_fmap context_path_group) in Hcp as (m & -> & Hm).
    now exists m, piece.
Qed.

(** ** The list of files to scan *)

Lemma diff_line_Some (acc acc' : gset string) (file_name : string) :
  diff_line acc file_name = Some acc' ->
  List.length (split_str file_name) <> 1
  /\ forall p, p ∈ acc' <-> p ∈ acc \/ names_text_file file_name p.
Proof.
  unfold diff_line, names_text_file.
  destruct (split_str file_name) as [|status [|path rest]].
  - intros [= <-]. split; [discriminate|]. intros p. split; [now left|].
    intros [H|(s & r & [=] & _)]. exact H.
  - discriminate.
  - destruct (existsb _ _ && is_text_file path && negb _) eqn:Hc; intros [= <-];
      (split; [discriminate|]); intros p.
    + apply andb_true_iff in Hc as [[Hs%existsb_exists Ht]%andb_true_iff Hw%negb_true_iff].
      rewrite elem_of_union, elem_of_singleton. split.
      * intros [H | ->]; [now left|]. right. exists status, rest.
        split; [reflexivity|]. split; [|now split].
        destruct Hs as (a & [<-|[<-|[]]] & Ha%String.eqb_eq); auto.
      * intros [H|(s & r & [= <- <- <-] & _)]; auto.
    + split; [now left|]. intros [H|(s & r & [= <- <- <-] & Hs & Ht & Hw)]; [exact H|].
      exfalso. rewrite Ht, Hw in Hc.
      destruct Hs as [Hs|Hs]; rewrite Hs in Hc; cbn in Hc; discriminate.
Qed.

Lemma diff_lines_Some (lines : list string) : forall (acc acc' : gset string),
  diff_lines acc lines = Some acc' ->
  Forall (fun line => List.length (split_str line) <> 1) lines
  /\ forall p, p ∈ acc' <-> p ∈ acc \/ exists line, line ∈ lines /\ names_text_file line p.
Proof.
  induction lines as [|line lines IH]; intros acc acc'; cbn [diff_lines].
  - intros [= <-]. split; [constructor|]. intros p. split; [now left|].
    intros [H|(l & Hl & _)]; [exact H|]. now apply elem_of_nil in Hl.
  - destruct (diff_line acc line) as [acc1|] eqn:H1; [|discriminate].
    intros H2. apply diff_line_Some in H1 as [Hlen H1]. apply IH in H2 as [Hall H2].
    split; [now constructor|]. intros p. rewrite H2, H1. split.
    + intros [[H|H]|(l & Hl & H)]; [now left| |].
      * right. exists line. split; [apply list_elem_of_here|exact H].
      * right. exists l. split; [now apply list_elem_of_further|exact H].
    + intros [H|(l & [->|Hl]%elem_of_cons & H)]; [left; now left|left; now right|].
      right. now exists l.
Qed.

Lemma diff_lines_None (lines : list string) : forall acc : gset string,
  diff_lines acc lines = None
  <-> exists line, line ∈ lines /\ List.length (split_str line) = 1.
Proof.
  induction lines as [|line lines IH]; intros acc; cbn [diff_lines].
  - split; [discriminate|]. intros (l & Hl & _). now apply elem_of_nil in Hl.
  - destruct (diff_line acc line) as [acc1|] eqn:H1.
    + rewrite IH. apply diff_line_Some in H1 as [Hlen _]. split.
      * intros (l & Hl & H). exists l. split; [now apply list_elem_of_further|exact H].
      * intros (l & [->|Hl]%elem_of_cons & H); [congruence|now exists l].
    + split; [intros _|reflexivity]. exists line. split; [apply list_elem_of_here|].
      unfold diff_line in H1. destruct (split_str line) as [|s [|p r]]; [discriminate|reflexivity|].
      destruct (_ && _ && _); discriminate.
Qed.

(** X19.  The paths [get_diff_text_files] returns are exactly the second fields
    of the lines whose first field is a or m in either case, whose path has a
    text extension and does not contain the name of the whitelist file. *)
Theorem get_diff_text_files_paths (files_string : string) (paths : gset string)
    (p : string) :
  get_diff_text_files files_string = Some paths ->
  p ∈ paths
  <-> exists line, line ∈ split_on newline files_string /\ names_text_file line p.
Proof.
  unfold get_diff_text_files. intros [_ H]%diff_lines_Some. rewrite H. split.
  - intros [Hp|Hp]; [set_solver|exact Hp].
  - intros Hp. now right.
Qed.

(** X20.  [get_diff_text_files] raises [IndexError] exactly when some line of
    the diff has a single field. *)
Theorem get_diff_text_files_error (files_string : string) :
  get_diff_text_files files_string = None
  <-> exists line, line ∈ split_on newline files_string
        /\ List.length (split_str line) = 1.
Proof. apply diff_lines_None. Qed.

(** ** When the report is empty *)

Section ReportEmpty.
Variable set_iter : list string -> list string.
Variable env : environment.

Lemma scan_file_keeps_keys (st st' : run_state) (p b : string) :
  scan_file set_iter env st p = Ok st' ->
  is_Some (secrets_found st !! b) -> is_Some (secrets_found st' !! b).
Proof.
  intros (y & ls & _ & ->)%scan_file_Ok Hb. cbn.
  destruct (has_findings ls); [|exact Hb].
  destruct (decide (last_component p = b)) as [<-|Hne].
  - rewrite lookup_insert_eq. eauto.
  - now rewrite lookup_insert_ne.
Qed.

Lemma scan_files_keep_keys (paths : list string) (st st' : run_state) (b : string) :
  scan_files set_iter env st paths = Ok st' ->
  is_Some (secrets_found st !! b) -> is_Some (secrets_found st' !! b).
Proof.
  revert st. induction paths as [|p paths IH]; intros st; cbn [scan_files].
  - now intros [= ->].
  - intros [st1 [H1 H2]]%bind_Ok Hb. apply (IH st1 H2).
    now apply (scan_file_keeps_keys st st1 p).
Qed.

Lemma scan_files_entry_origin (paths : list string) (st st' : run_state) (b : string)
    (found : gset string) :
  scan_files set_iter env st paths = Ok st' ->
  secrets_found st' !! b = Some found ->
  secrets_found st !! b = Some found
  \/ some_file_has_findings set_iter env st paths.
Proof.
  revert st. induction paths as [|q paths IH]; intros st; cbn [scan_files].
  - intros [= ->]. now left.
  - intros [sq [H1 H2]]%bind_Ok Hb.
    destruct (IH sq H2 Hb) as [H|(pre & p & post & st1 & y & ls & -> & Hpre & Hf & Hh)].
    + pose proof H1 as (y & ls & Hf & ->)%scan_file_Ok. cbn in H.
      destruct (has_findings ls) eqn:Hh; [|now left].
      right. exists [], q, paths, st, y, ls. auto.
    + right. exists (q :: pre), p, post, st1, y, ls.
      split; [reflexivity|]. split; [|now split].
      cbn [scan_files]. rewrite H1. exact Hpre.
Qed.

(** X17.  The report of a run is non-empty exactly when some file yielded
    findings when its turn came; an entry, once made, is never removed. *)
Theorem report_nonempty_iff (entries : list string) (paths : list string)
    (st : run_state) :
  scan_files set_iter env (initial_state entries) paths = Ok st ->
  secrets_found st <> ∅
  <-> some_file_has_findings set_iter env (initial_state entries) paths.
Proof.
  intros Hrun. split.
  - intros Hne. apply map_choose in Hne as (b & found & Hb).
    destruct (scan_files_entry_origin paths _ st b found Hrun Hb) as [H|H]; [|exact H].
    cbn in H. now rewrite lookup_empty in H.
  - intros (pre & p & post & st1 & y & ls & -> & Hpre & Hf & Hh) Hempty.
    rewrite scan_files_app, Hpre in Hrun. cbn [mbind result_bind scan_files] in Hrun.
    apply bind_Ok in Hrun as [st2 [H2 Hpost]].
    assert (is_Some (secrets_found st !! last_component p)) as [found Hfound].
    { apply (scan_files_keep_keys post st2 st _ Hpost).
      rewrite (scan_file_entry set_iter env st1 st2 p y ls Hf Hh H2). eauto. }
    rewrite Hempty, lookup_empty in Hfound. discriminate.
Qed.

End ReportEmpty.

(** ** Splitting a path *)

Lemma rfind_lt (c : ascii) (s : string) (i : nat) :
  rfind c s = Some i -> i < String.length s.
Proof.
  revert i. induction s as [|d s IH]; intros i; cbn [rfind String.length]; [discriminate|].
  destruct (rfind c s) as [j|].
  - intros [= <-]. specialize (IH j eq_refl). lia.
  - destruct (Ascii.eqb d c); [|discriminate]. intros [= <-]. lia.
Qed.

Lemma substring_cut (n : nat) (s : string) :
  n <= String.length s ->
  (substring 0 n s ++ substring n (String.length s - n) s)%string = s.
Proof.
  revert n. induction s as [|c s IH]; intros n Hn.
  - destruct n; [reflexivity|]. simpl in Hn. lia.
  - destruct n as [|n].
    + cbn [substring String.length]. rewrite append_nil_l. f_equal.
      specialize (IH 0 ltac:(lia)). rewrite Nat.sub_0_r in IH.
      destruct s; [reflexivity|]. cbn [substring] in IH. rewrite append_nil_l in IH.
      exact IH.
    + cbn [substring String.length]. rewrite append_cons. f_equal.
      apply IH. simpl in Hn. lia.
Qed.

Lemma substring_head (n m : nat) (s : string) (c : ascii) :
  String.get n s = Some c -> first_char_of (substring n (S m) s) = Some c.
Proof.
  revert n. induction s as [|d s IH]; intros n; [destruct n; discriminate|].
  destruct n as [|n]; cbn [String.get substring].
  - now intros [= ->].
  - apply IH.
Qed.

Lemma rfind_get (c : ascii) (s : string) (i : nat) :
  rfind c s = Some i -> String.get i s = Some c.
Proof.
  revert i. induction s as [|d s IH]; intros i; cbn [rfind]; [discriminate|].
  destruct (rfind c s) as [j|].
  - intros [= <-]. cbn. now apply IH.
  - destruct (Ascii.eqb_spec d c) as [->|]; [|discriminate]. now intros [= <-].
Qed.

(** X18.  [splitext] loses nothing: root and extension concatenate to the
    path, and the extension is empty or starts with a dot. *)
Theorem splitext_parts (p : string) :
  (fst (splitext p) ++ snd (splitext p))%string = p
  /\ (snd (splitext p) = EmptyString
      \/ first_char_of (snd (splitext p)) = Some "."%char).
Proof.
  unfold splitext. destruct (rfind "." p) as [dot|] eqn:Hdot.
  - destruct (_ && _); cbn [fst snd].
    + pose proof (rfind_lt _ _ _ Hdot) as Hlt. split.
      * apply substring_cut. lia.
      * right. replace (String.length p - dot) with (S (String.length p - dot - 1)) by lia.
        apply substring_head. now apply rfind_get.
    + split; [apply string_app_nil_r|now left].
  - cbn [fst snd]. split; [apply string_app_nil_r|now left].
Qed.

(** ** The lists of modified and added files *)

(** A path of a checked type never starts with a dot. *)
Lemma checked_type_not_hidden (file_path : string) :
  checked_type file_path = true -> startswith "." file_path = false.
Proof.
  unfold checked_type. rewrite existsb_exists. intros (r & Hr & Hm).
  unfold re_match in Hm. destruct (rmatch r file_path Some) as [rest|] eqn:E; [|discriminate].
  apply rmatch_sound in E as (w & mid & -> & Hw & _). apply lang_first in Hw.
  destruct w as [|c w].
  - exfalso. revert Hw. clear -Hr. unfold CHECKED_TYPES_REGEXES in Hr.
    repeat (destruct Hr as [<-|Hr]; [vm_compute; discriminate|]). destruct Hr.
  - rewrite append_cons. unfold startswith. cbn [String.prefix].
    destruct (ascii_dec "." c) as [<-|_]; [|reflexivity]. exfalso. revert Hw. clear -Hr.
    unfold CHECKED_TYPES_REGEXES in Hr.
    repeat (destruct Hr as [<-|Hr]; [vm_compute; discriminate|]). destruct Hr.
Qed.

Lemma names_checked_file_fields (st f status path p : string) (rest : list string) :
  split_str f = status :: path :: rest ->
  names_checked_file st f p
  <-> p = path /\ lower_str status = st /\ checked_type path = true
      /\ endswith ".js" path = false /\ endswith ".py" path = false.
Proof.
  intros Hf. unfold names_checked_file. rewrite Hf. split.
  - intros (s & r & [= <- <- <-] & H). tauto.
  - intros (-> & H). exists status, rest. tauto.
Qed.

Lemma modified_line_Some (m a m' a' : gset string) (f : string) :
  modified_line (m, a) f = Some (m', a') ->
  (forall p, p ∈ m' <-> p ∈ m \/ names_checked_file "m" f p)
  /\ (forall p, p ∈ a' <-> p ∈ a \/ names_checked_file "a" f p).
Proof.
  unfold modified_line.
  destruct (split_str f) as [|status [|path rest]] eqn:Hf.
  - intros [= <- <-]. unfold names_checked_file. rewrite Hf.
    split; intros p; (split; [now left|]); intros [H|(s & r & [=] & _)]; exact H.
  - discriminate.
  - intros H.
    assert (forall st p, names_checked_file st f p
              <-> p = path /\ lower_str status = st /\ checked_type path = true
                  /\ endswith ".js" path = false /\ endswith ".py" path = false) as E
      by (intros st p; now apply (names_checked_file_fields st f status path p rest)).
    destruct (endswith ".js" path) eqn:Hjs;
      [|destruct (endswith ".py" path) eqn:Hpy]; cbn [orb] in H.
    1,2: injection H as <- <-; split; intros p; rewrite E; split;
           [now left|intros [?|(_ & _ & _ & ? & ?)]; [assumption|discriminate]
           |now left|intros [?|(_ & _ & _ & ? & ?)]; [assumption|discriminate]].
    destruct (checked_type path) eqn:Hc.
    2:{ rewrite !andb_false_r in H. cbn in H. injection H as <- <-.
        split; intros p; rewrite E; split;
          [now left|intros [?|(_ & _ & ? & _)]; [assumption|discriminate]
          |now left|intros [?|(_ & _ & ? & _)]; [assumption|discriminate]]. }
    rewrite (checked_type_not_hidden path Hc) in H. cbn [negb] in H.
    rewrite !andb_true_r in H.
    destruct (String.eqb_spec (lower_str status) "m") as [Hm|Hm].
    { injection H as <- <-. split; intros p; rewrite E; rewrite Hm.
      - rewrite elem_of_union, elem_of_singleton. naive_solver.
      - naive_solver. }
    destruct (String.eqb_spec (lower_str status) "a") as [Ha|Ha].
    { injection H as <- <-. split; intros p; rewrite E; rewrite Ha.
      - naive_solver.
      - rewrite elem_of_union, elem_of_singleton. naive_solver. }
    injection H as <- <-. split; intros p; rewrite E; naive_solver.
Qed.

Lemma modified_lines_Some (lines : list string) : forall (m a m' a' : gset string),
  modified_lines (m, a) lines = Some (m', a') ->
  (forall p, p ∈ m' <-> p ∈ m \/ exists f, f ∈ lines /\ names_checked_file "m" f p)
  /\ (forall p, p ∈ a' <-> p ∈ a \/ exists f, f ∈ lines /\ names_checked_file "a" f p).
Proof.
  induction lines as [|f lines IH]; intros m a m' a'; cbn [modified_lines].
  - intros [= <- <-]. split; intros p; (split; [now left|]);
      intros [H|(l & Hl & _)]; try exact H; now apply elem_of_nil in Hl.
  - destruct (modified_line (m, a) f) as [[m1 a1]|] eqn:H1; [|discriminate].
    intros H2. apply modified_line_Some in H1 as [Hm1 Ha1].
    apply IH in H2 as [Hm2 Ha2].
    split; intros p; [rewrite Hm2, Hm1|rewrite Ha2, Ha1].
    all: split;
      [ intros [[H|H]|(l & Hl & H)];
          [now left
          |right; exists f; split; [apply list_elem_of_here|exact H]
          |right; exists l; split; [now apply list_elem_of_further|exact H]]
      | intros [H|(l & [->|Hl]%elem_of_cons & H)];
          [left; now left|left; now right|right; now exists l] ].
Qed.

(** X21.  The two lists of [get_modified_files] hold exactly the second fields of
    the lines with status m, respectively a, in either case, whose path is of
    a checked type and ends neither in [.js] nor in [.py]. *)
Theorem get_modified_files_lists (files_string : string)
    (modified added : gset string) (p : string) :
  get_modified_files files_string = Some (modified, added) ->
  (p ∈ modified
   <-> exists f, f ∈ split_on newline files_string /\ names_checked_file "m" f p)
  /\ (p ∈ added
      <-> exists f, f ∈ split_on newline files_string /\ names_checked_file "a" f p).
Proof.
  unfold get_modified_files. intros [Hm Ha]%modified_lines_Some.
  assert (forall s, (p ∈ (∅ : gset string)
                     \/ exists f, f ∈ split_on newline files_string
                                  /\ names_checked_file s f p)
                    <-> exists f, f ∈ split_on newline files_string
                                  /\ names_checked_file s f p) as Hs.
  { intros s. split; [intros [H|H]; [set_solver|exact H]|now right]. }
  rewrite Hm, Ha, !Hs. split; reflexivity.
Qed.

Lemma move_added_fold (from_branch : gset string) (files : list string) :
  forall (m a : gset string),
    fold_left (move_added from_branch) files (m, a)
    = (m ∖ (list_to_set files ∩ from_branch),
       a ∪ (list_to_set files ∩ from_branch)).
Proof.
  induction files as [|f files IH]; intros m a; cbn [fold_left list_to_set].
  - f_equal; set_solver.
  - unfold move_added at 2. case_bool_decide as Hf; rewrite IH; f_equal; set_solver.
Qed.

(** X23.  Outside the build server, a locally modified file that the branch
    added is returned as added and not as modified, whatever the order in
    which the loop visits the set of modified files. *)
Theorem get_modified_and_added_files_moves (set_order : gset string -> list string)
    (all_changed_files_string files_string : string)
    (modified added from_modified from_added : gset string) :
  (forall X : gset string, set_order X ≡ₚ elements X) ->
  get_modified_files files_string = Some (modified, added) ->
  get_modified_files all_changed_files_string = Some (from_modified, from_added) ->
  get_modified_and_added_files set_order all_changed_files_string files_string false
  = Some (modified ∖ from_added, added ∪ (modified ∩ from_added)).
Proof.
  intros Horder H1 H2. unfold get_modified_and_added_files. rewrite H1, H2. cbn.
  rewrite move_added_fold. f_equal.
  assert (list_to_set (set_order modified) = modified) as ->; [|f_equal; set_solver].
  apply set_eq. intros x. rewrite elem_of_list_to_set, (Horder modified).
  apply elem_of_elements.
Qed.

(** ** The id set *)

Section IdSetFacts.
Context {V : Type} `{EqDecision V}.
Variable vstr : string -> V.

Lemma id_set_loop_true (file_id : string) (file_data : gmap string V)
    (obj_set : list (list (string * gmap string V))) : forall is_found : bool,
  id_set_loop vstr file_id file_data obj_set is_found = Some true
  <-> Forall (fun inst => inst <> []) obj_set
      /\ (is_found = true
          \/ Exists (same_id_and_versions vstr file_id file_data) obj_set)
      /\ Forall (fun inst => same_id_and_versions vstr file_id file_data inst ->
                             exists rest, inst = (file_id, file_data) :: rest) obj_set.
Proof.
  induction obj_set as [|inst obj_set IH]; intros is_found; cbn [id_set_loop].
  - split.
    + intros [= ->]. split; [constructor|]. split; [now left|constructor].
    + intros (_ & [->|Hex] & _); [reflexivity|]. inversion Hex.
  - unfold first_item. destruct inst as [|[id d] rest]; cbn [head].
    { split; [discriminate|]. intros (Hne & _). inversion Hne; congruence. }
    assert (same_id_and_versions vstr file_id file_data ((id, d) :: rest)
            <-> id = file_id
                /\ get_or vstr d "toversion" "99.99.99"
                   = get_or vstr file_data "toversion" "99.99.99"
                /\ get_or vstr d "fromversion" "0.0.0"
                   = get_or vstr file_data "fromversion" "0.0.0") as Hsame.
    { unfold same_id_and_versions. split.
      - intros (d' & r & [= -> <- <-] & H1 & H2). auto.
      - intros (-> & H1 & H2). now exists d, rest. }
    rewrite !Forall_cons, Exists_cons, Hsame.
    destruct (String.eqb_spec id file_id) as [->|Hid]; cbn [andb].
    2:{ rewrite IH. split.
        - intros (H1 & H2 & H3). split; [split; [discriminate|exact H1]|].
          split; [tauto|]. split; [|exact H3]. intros (Hc & _). congruence.
        - intros ((_ & H1) & H2 & _ & H3). split; [exact H1|]. split; [|exact H3].
          destruct H2 as [H2|[(Hc & _)|H2]]; [now left|congruence|now right]. }
    case_bool_decide as Hto; cbn [andb].
    2:{ rewrite IH. split.
        - intros (H1 & H2 & H3). split; [split; [discriminate|exact H1]|].
          split; [tauto|]. split; [|exact H3]. intros (_ & Hc & _). congruence.
        - intros ((_ & H1) & H2 & _ & H3). split; [exact H1|]. split; [|exact H3].
          destruct H2 as [H2|[(_ & Hc & _)|H2]]; [now left|congruence|now right]. }
    case_bool_decide as Hfrom; cbn [andb].
    2:{ rewrite IH. split.
        - intros (H1 & H2 & H3). split; [split; [discriminate|exact H1]|].
          split; [tauto|]. split; [|exact H3]. intros (_ & _ & Hc). congruence.
        - intros ((_ & H1) & H2 & _ & H3). split; [exact H1|]. split; [|exact H3].
          destruct H2 as [H2|[(_ & _ & Hc)|H2]]; [now left|congruence|now right]. }
    case_bool_decide as Hdata.
    + split; [discriminate|]. intros (_ & _ & Hd & _).
      destruct Hd as [r Hr]; [auto|]. injection Hr as Hr _. congruence.
    + subst d. rewrite IH. split.
      * intros (H1 & _ & H3). split; [split; [discriminate|exact H1]|].
        split; [right; left; auto|]. split; [|exact H3]. intros _. now exists rest.
      * intros ((_ & H1) & _ & _ & H3). split; [exact H1|]. split; [now left|exact H3].
Qed.

(** X24.  [is_valid_in_id_set] returns [True] exactly when the id set holds an
    instance with the id and the version range of the file, and every such
    instance carries the very data of the file. *)
Theorem is_valid_in_id_set_true (obj_data : list (string * gmap string V))
    (obj_set : list (list (string * gmap string V))) :
  is_valid_in_id_set vstr obj_data obj_set = Some true
  <-> exists file_id file_data others,
        obj_data = (file_id, file_data) :: others
        /\ Forall (fun inst => inst <> []) obj_set
        /\ Exists (same_id_and_versions vstr file_id file_data) obj_set
        /\ Forall (fun inst => same_id_and_versions vstr file_id file_data inst ->
                               exists rest, inst = (file_id, file_data) :: rest) obj_set.
Proof.
  unfold is_valid_in_id_set, first_item. destruct obj_data as [|[file_id file_data] others];
    cbn [head].
  - split; [discriminate|]. intros (i & d & o & [=] & _).
  - rewrite id_set_loop_true. split.
    + intros (H1 & [H2|H2] & H3); [discriminate|]. now exists file_id, file_data, others.
    + intros (i & d & o & [= <- <- <-] & H1 & H2 & H3). auto.
Qed.

End IdSetFacts.

(** * Further properties *)

(** ** Entropy *)

Section EntropyTheorems.
Local Open Scope R_scope.

(** X1.  The comparison of the entropy with the threshold 3.8 is an exact integer
    comparison: with [n] the length of the string, [k c] the count of the
    printable character [c] and [K] the sum of these counts, the entropy is at
    least 3.8 exactly when the string is not empty and
    [2^(19 n) * prod (k c ^ (5 k c)) <= n ^ (5 K)]. *)
Theorem entropy_threshold_exact (data : string) :
  calculate_shannon_entropy data >= ENTROPY_THRESHOLD
  <-> data <> EmptyString
      /\ let n := Z.of_nat (String.length data) in
         let ks := map (fun c => count_char c data) printable in
         (2 ^ (19 * n) * power_product ks <= n ^ (5 * count_total ks))%Z.
Proof.
  rewrite <- entropy_reaches_threshold_spec. cbv zeta.
  destruct data as [|d data].
  - unfold entropy_reaches_threshold. split; [discriminate|]. intros [H _]. congruence.
  - unfold entropy_reaches_threshold. rewrite printable_counts_nat, Z.leb_le.
    split; [intros H; split; [discriminate|exact H]|intros [_ H]; exact H].
Qed.

(** X2.  With floating-point numbers read as reals, the entropy of a
    non-empty string lies between 0 and the binary logarithm of its length.
    The upper bound is reached by a string of distinct printable characters,
    where the value the code computes in double precision can exceed it in
    the last places. *)
Theorem entropy_bounds (data : string) :
  data <> EmptyString ->
  0 <= calculate_shannon_entropy data <= log2 (INR (String.length data)).
Proof. intros Hne. destruct (entropy_range data) as [H0 H1]. split; auto. Qed.

Lemma entropy_bounds_witness :
  0 <= calculate_shannon_entropy "ab" <= log2 (INR (String.length "ab")).
Proof. apply entropy_bounds. discriminate. Defined.

(** X3.  A string whose entropy reaches the threshold has at least 14
    characters. *)
Theorem entropy_needs_14_characters (data : string) :
  calculate_shannon_entropy data >= ENTROPY_THRESHOLD ->
  (14 <= String.length data)%nat.
Proof. apply threshold_needs_length. Qed.

Lemma entropy_needs_14_characters_witness :
  (14 <= String.length random_token)%nat.
Proof.
  apply entropy_needs_14_characters. apply entropy_reaches_threshold_spec.
  vm_compute. reflexivity.
Defined.

Lemma entropy_permutation_witness :
  calculate_shannon_entropy (string_of_list_ascii ["a"; "b"; "b"]%char)
  = calculate_shannon_entropy (string_of_list_ascii ["b"; "a"; "b"]%char).
Proof. apply entropy_permutation. apply perm_swap. Defined.

Lemma entropy_zero_witness : calculate_shannon_entropy "aaaa" = 0.
Proof. apply entropy_zero. left. exists "a"%char. reflexivity. Defined.

End EntropyTheorems.

(** ** The scan of one file *)

(** X6.  The date matches added to the whitelist while a file is scanned never
    change the entropy findings: the list is what the entropy pass yields
    over the lines without the marker, with the whitelist the scan of the file
    starts from. *)
Theorem entropy_findings_ignore_dates (set_iter : list string -> list string)
    (white_list : gset string) (context_source contents : string) :
  high_entropy_strings (scan_contents set_iter white_list context_source contents)
  = entropy_passes (white_list ∪ create_temp_white_list context_source)
      (set_iter (split_on newline contents)) [].
Proof. apply scan_contents_high. Qed.

Lemma entropy_findings_shape_witness :
  (14 <= String.length random_token)%nat
  /\ all_chars (fun c => negb (is_space c)) random_token = true.
Proof.
  pose proof (entropy_findings_shape first_seen ∅ random_line random_line random_token
                ltac:(compute_done)) as H.
  split; apply H.
Defined.

Lemma findings_antitone_witness :
  file_secrets_of (scan_contents first_seen {[ "ax7" ]} random_line random_line)
  ⊆ file_secrets_of (scan_contents first_seen ∅ random_line random_line).
Proof. apply findings_antitone. apply empty_subseteq. Defined.

Lemma regex_for_secrets_substrings_witness :
  contains "http://h.io/x" "see http://h.io/x" = true.
Proof.
  apply (regex_for_secrets_substrings "see http://h.io/x" "http://h.io/x").
  left. compute_done.
Defined.

Lemma temp_white_list_entries_witness : lower "foo" = "foo".
Proof.
  apply (temp_white_list_entries "contextPath: Foo.Bar" "foo").
  compute_done.
Defined.

(** ** The run *)

Lemma first_path_not_script_witness :
  search_potential_secrets first_seen stale_env ["b.json"] = Raise UnboundLocalError.
Proof.
  apply (first_path_not_script first_seen stale_env [] "b.json" own_context_text []).
  - reflexivity.
  - intros H. vm_compute in H. discriminate H.
  - reflexivity.
Defined.

Lemma run_reads_every_file_witness :
  is_Some (white_list_json leak_env)
  /\ forall p, p ∈ ["a.py"; "b.py"] -> is_Some (read_text leak_env ("./" ++ p)%string).
Proof.
  pose proof (run_reads_every_file first_seen leak_env ["a.py"; "b.py"] ∅
                ltac:(compute_done)) as H.
  split; apply H.
Defined.

(** X14.  Over a run the working whitelist only grows: what a file adds, its
    contextual entries and the date matches of its lines, stays for all the
    files scanned after it. *)
Theorem run_white_list_grows (set_iter : list string -> list string)
    (env : environment) (paths : list string) (st st' : run_state) :
  scan_files set_iter env st paths = Ok st' ->
  run_white_list st ⊆ run_white_list st'.
Proof. apply scan_files_white_list_mono. Qed.

Lemma run_white_list_grows_witness :
  exists st1 st2,
    scan_files first_seen leak_env (initial_state ["api.key"]) ["a.py"] = Ok st1
    /\ scan_files first_seen leak_env st1 ["b.py"] = Ok st2
    /\ "api.key" ∈ run_white_list st1
    /\ "ax7" ∈ run_white_list st1
    /\ run_white_list st1 ⊆ run_white_list st2.
Proof.
  destruct (scan_files first_seen leak_env (initial_state ["api.key"]) ["a.py"])
    as [st1|e] eqn:E1; [|vm_compute in E1; discriminate E1].
  destruct (scan_files first_seen leak_env st1 ["b.py"]) as [st2|e] eqn:E2.
  - exists st1, st2. split; [reflexivity|]. split; [exact E2|].
    split; [vm_compute in E1; injection E1 as <-; compute_done|].
    split; [vm_compute in E1; injection E1 as <-; compute_done|].
    exact (run_white_list_grows first_seen leak_env ["b.py"] st1 st2 E2).
  - vm_compute in E1. injection E1 as <-. vm_compute in E2. discriminate E2.
Defined.

Lemma empty_entry_silences_run_witness :
  EmptyString ∈ create_temp_white_list "contextPath: a..b"
  /\ exists st', scan_files first_seen leak_env silenced_state ["b.py"] = Ok st'
                 /\ secrets_found st' = secrets_found silenced_state.
Proof.
  split; [compute_done|].
  destruct (scan_files first_seen leak_env silenced_state ["b.py"]) as [st'|e] eqn:E.
  - exists st'. split; [reflexivity|].
    apply (empty_entry_silences_run first_seen leak_env ["b.py"] silenced_state st');
      [|exact E].
    compute_done.
  - vm_compute in E. discriminate E.
Defined.

Lemma report_keys_and_entries_witness :
  ({[ "http://h.io/x" ]} : gset string) <> ∅
  /\ exists p, p ∈ ["d1/a.py"; "d2/a.py"] /\ "a.py" = last_component p.
Proof.
  pose proof (report_keys_and_entries first_seen same_name_env ["d1/a.py"; "d2/a.py"]
                {[ "a.py" := {[ "http://h.io/x" ]} ]} "a.py" {[ "http://h.io/x" ]}
                ltac:(compute_done) ltac:(compute_done)) as H.
  split; apply H.
Defined.

Lemma report_nonempty_iff_witness :
  exists st,
    scan_files first_seen same_name_env (initial_state []) ["d1/a.py"; "d2/a.py"] = Ok st
    /\ (secrets_found st <> ∅
        <-> some_file_has_findings first_seen same_name_env (initial_state [])
              ["d1/a.py"; "d2/a.py"]).
Proof.
  destruct (scan_files first_seen same_name_env (initial_state []) ["d1/a.py"; "d2/a.py"])
    as [st|e] eqn:E.
  - exists st. split; [reflexivity|].
    exact (report_nonempty_iff first_seen same_name_env [] ["d1/a.py"; "d2/a.py"] st E).
  - vm_compute in E. discriminate E.
Defined.

(** ** The lists of files *)

Lemma get_diff_text_files_paths_witness :
  "docs/x.yml" ∈ ({[ "Scripts/a.py"; "docs/x.yml" ]} : gset string)
  <-> exists line, line ∈ split_on newline diff_text /\ names_text_file line "docs/x.yml".
Proof.
  apply (get_diff_text_files_paths diff_text). compute_done.
Defined.

(** X22.  A path of a checked type never starts with a dot, so the test for a
    leading dot in [get_modified_files] never decides. *)
Theorem checked_type_never_hidden (file_path : string) :
  checked_type file_path = true -> startswith "." file_path = false.
Proof. apply checked_type_not_hidden. Qed.

Lemma checked_type_never_hidden_witness :
  startswith "." "Playbooks/playbook-a.yml" = false.
Proof. apply checked_type_never_hidden. vm_compute. reflexivity. Defined.

Lemma get_modified_files_lists_witness :
  "Playbooks/playbook-a.yml" ∈ ({[ "Playbooks/playbook-a.yml" ]} : gset string)
  <-> exists f, f ∈ split_on newline head_diff_text
        /\ names_checked_file "m" f "Playbooks/playbook-a.yml".
Proof.
  apply (get_modified_files_lists head_diff_text {[ "Playbooks/playbook-a.yml" ]} ∅).
  compute_done.
Defined.

Lemma get_modified_and_added_files_moves_witness :
  get_modified_and_added_files elements branch_diff_text head_diff_text false
  = Some (({[ "Playbooks/playbook-a.yml" ]} : gset string)
            ∖ {[ "Playbooks/playbook-a.yml" ]},
          ∅ ∪ ({[ "Playbooks/playbook-a.yml" ]} ∩ {[ "Playbooks/playbook-a.yml" ]})).
Proof.
  apply (get_modified_and_added_files_moves elements branch_diff_text head_diff_text
           {[ "Playbooks/playbook-a.yml" ]} ∅ ∅ {[ "Playbooks/playbook-a.yml" ]}).
  - intros X. reflexivity.
  - compute_done.
  - compute_done.
Defined.
